(** * Journaling streak engine ([src/lib/utils/streaks.ts])

    A shallow embedding of the streak calculation of the journal app and
    the properties its specification states about it.

    Conventions of the embedding.

    - A JavaScript [Date] is its time value: an integer count of
      milliseconds since 1970-01-01T00:00:00Z ([Z]).  Time values are taken
      inside the range in which [Date] is valid, so [toISOString] does not
      throw and [TimeClip] is the identity.
    - A calendar-day string [YYYY-MM-DD] is represented by the number of the
      UTC day it names (days since 1970-01-01).  [toISOString] prints the
      UTC fields of a time value and [new Date("YYYY-MM-DD")] reads a
      date-only string as UTC midnight, so the string and the day number
      determine each other; string equality ([includes], [Set]) is
      equality of day numbers, and [localeCompare] on two such strings
      (four-digit years) is the comparison of the day numbers.
    - [createdAt] of an entry is the time value [new Date(entry.createdAt)]
      denotes; timestamps that do not parse are outside the model.
    - The ambient clock [new Date()] is the explicit parameter [now], and
      the local time zone of the device is the explicit parameter
      [LocalTZA] (the offset in effect at a time value).  [fixedOffset tza]
      is a zone whose offset never changes; [newYork2025] is a zone with a
      change between daylight saving time and standard time.
    - Counts and indices are JavaScript numbers holding integers: [Z].

    The development also embeds the logic of the entry form
    ([src/components/JournalEntryForm.tsx]), of the document preview
    ([src/lib/sanity/client.ts]) and of [src/lib/utils/generateAPIUrl.ts].

    - A string of user text is its sequence of UTF-16 code units
      ([list Z]); the literals of the source shown to the user are [string].
    - A React state variable is the value it holds, a state setter returns
      the new value, and the calls an event handler makes ([Alert.alert],
      [setIsSaving], [onSave]) are listed in order as its effects. *)

From Stdlib Require Import ZArith List Bool Lia String Ascii.
From Stdlib Require Import DecimalString DecimalZ.
From Stdlib Require Import Sorting.Sorted Sorting.Permutation.
Import ListNotations.
Open Scope Z_scope.

(** ** The runtime: [Date] *)

Module JSDate.

Definition msPerDay : Z := 1000 * 60 * 60 * 24.

(** ECMAScript [Day(t)] and [TimeWithinDay(t)]. *)
Definition Day (t : Z) : Z := t / msPerDay.
Definition TimeWithinDay (t : Z) : Z := t mod msPerDay.

(** ECMAScript [DayFromYear(y)], [InLeapYear]. *)
Definition DayFromYear (y : Z) : Z :=
  365 * (y - 1970) + (y - 1969) / 4 - (y - 1901) / 100 + (y - 1601) / 400.

Definition InLeapYear (y : Z) : bool :=
  (y mod 4 =? 0) && (negb (y mod 100 =? 0) || (y mod 400 =? 0)).

(** ECMAScript [YearFromTime]: the largest year [y] with
    [DayFromYear y <= d].  A 400-year cycle has 146097 days, which places
    the year within one of the estimate. *)
Definition YearFromDay (d : Z) : Z :=
  let y := 1970 + (400 * d) / 146097 in
  if DayFromYear (y + 1) <=? d then y + 1
  else if DayFromYear y <=? d then y
  else y - 1.

(** Number of days of the year before month [m] (0 = January). *)
Definition monthTable (leap : bool) : list Z :=
  let f := if leap then 1 else 0 in
  [0; 31; 59 + f; 90 + f; 120 + f; 151 + f; 181 + f; 212 + f; 243 + f;
   273 + f; 304 + f; 334 + f].

Definition daysBeforeMonth (y m : Z) : Z :=
  nth (Z.to_nat m) (monthTable (InLeapYear y)) 0.

Definition YearFromTime (t : Z) : Z := YearFromDay (Day t).

Definition DayWithinYear (t : Z) : Z := Day t - DayFromYear (YearFromTime t).

(** ECMAScript [MonthFromTime(t)]: the last month that starts on or
    before the day of [t] within its year. *)
Definition MonthFromTime (t : Z) : Z :=
  Z.of_nat
    (List.length
       (filter (fun s => s <=? DayWithinYear t)
               (tl (monthTable (InLeapYear (YearFromTime t)))))).

(** ECMAScript [DateFromTime(t)]: the day of the month, from 1. *)
Definition DateFromTime (t : Z) : Z :=
  DayWithinYear t - daysBeforeMonth (YearFromTime t) (MonthFromTime t) + 1.

(** ECMAScript [MakeDay(year, month, date)]: months outside 0..11 carry
    into the year, and [date] is added linearly to the first of the
    month, so a date outside the month carries into its neighbours. *)
Definition MakeDay (year month date : Z) : Z :=
  let ym := year + month / 12 in
  let mn := month mod 12 in
  DayFromYear ym + daysBeforeMonth ym mn + date - 1.

Definition MakeDate (day time : Z) : Z := day * msPerDay + time.

Section LocalZone.
(** ECMAScript [LocalTZA(t, isUTC)]: the offset of the local time zone in
    milliseconds (local = UTC + offset), in effect at the UTC time value
    [t] when [isUTC] is true and at the local time value [t] otherwise. *)
Variable LocalTZA : Z -> bool -> Z.

Definition LocalTime (t : Z) : Z := t + LocalTZA t true.
Definition UTC (t : Z) : Z := t - LocalTZA t false.

(** [Date.prototype.getDate()]. *)
Definition getDate (t : Z) : Z := DateFromTime (LocalTime t).

(** [Date.prototype.setDate(dt)]: the new time value. *)
Definition setDate (t dt : Z) : Z :=
  let lt := LocalTime t in
  UTC (MakeDate (MakeDay (YearFromTime lt) (MonthFromTime lt) dt)
                (TimeWithinDay lt)).
End LocalZone.

(** A zone whose offset never changes (no daylight saving). *)
Definition fixedOffset (offset : Z) : Z -> bool -> Z := fun _ _ => offset.

(** [new Date("YYYY-MM-DD")]: a date-only string is UTC midnight of the
    day it names. *)
Definition parseDay (d : Z) : Z := MakeDate d 0.

(** [d.toISOString().split("T")[0]]: the date part of the ISO rendering,
    which is the UTC day of the time value. *)
Definition isoDatePart (t : Z) : Z := Day t.

End JSDate.

(** ** The runtime: arrays, [Set], [Math] *)

Module JSArray.

(** [arr.includes(x)] on calendar days. *)
Definition includes (arr : list Z) (x : Z) : bool := existsb (Z.eqb x) arr.

(** [arr.findIndex(p)]: index of the first element satisfying [p], or -1. *)
Fixpoint findIndex {A : Type} (p : A -> bool) (arr : list A) : Z :=
  match arr with
  | [] => -1
  | x :: rest =>
      if p x then 0
      else let r := findIndex p rest in if r =? -1 then -1 else r + 1
  end.

(** [Array.from({length: n}, (_, i) => f i)]. *)
Definition from_length {A : Type} (n : nat) (f : Z -> A) : list A :=
  map (fun i => f (Z.of_nat i)) (seq 0 n).

(** [arr.slice(start, end)]: negative positions count from the end, and
    both are clamped to the array. *)
Definition relIndex (len i : Z) : Z :=
  if i <? 0 then Z.max (len + i) 0 else Z.min i len.

Definition slice {A : Type} (arr : list A) (start stop : Z) : list A :=
  let len := Z.of_nat (List.length arr) in
  let k := relIndex len start in
  let final := relIndex len stop in
  firstn (Z.to_nat (final - k)) (skipn (Z.to_nat k) arr).

(** [arr.slice(start)]. *)
Definition slice_from {A : Type} (arr : list A) (start : Z) : list A :=
  slice arr start (Z.of_nat (List.length arr)).

(** [arr.map((x, i) => f x i)]. *)
Fixpoint mapi_from {A B : Type} (f : A -> Z -> B) (i : Z) (arr : list A)
  : list B :=
  match arr with
  | [] => []
  | x :: rest => f x i :: mapi_from f (i + 1) rest
  end.

Definition mapi {A B : Type} (f : A -> Z -> B) (arr : list A) : list B :=
  mapi_from f 0 arr.

(** [arr.reduce(f, init)] (the index argument is not used by the caller). *)
Definition reduce {A B : Type} (f : B -> A -> B) (arr : list A) (init : B)
  : B := fold_left f arr init.

(** [[...new Set(arr)]]: the elements in order of first occurrence. *)
Definition Set_add (s : list Z) (x : Z) : list Z :=
  if includes s x then s else s ++ [x].

Definition Set_spread (arr : list Z) : list Z := fold_left Set_add arr [].

(** [arr.sort(cmp)]: a stable sort; [cmp a b < 0] puts [a] first. *)
Fixpoint sort_insert (cmp : Z -> Z -> Z) (x : Z) (sorted : list Z)
  : list Z :=
  match sorted with
  | [] => [x]
  | y :: rest =>
      if cmp x y <=? 0 then x :: y :: rest
      else y :: sort_insert cmp x rest
  end.

Definition sort (cmp : Z -> Z -> Z) (arr : list Z) : list Z :=
  fold_right (sort_insert cmp) [] arr.

(** [a.localeCompare(b)] on two calendar-day strings. *)
Definition localeCompare (a b : Z) : Z :=
  match a ?= b with
  | Lt => -1
  | Eq => 0
  | Gt => 1
  end.

(** [Math.max(...arr)].  On an empty array JavaScript gives [-Infinity];
    the engine never calls it on one ([streaks_nonempty] below), and the
    model returns 0 there. *)
Definition Math_max (arr : list Z) : Z :=
  match arr with
  | [] => 0
  | x :: rest => fold_left Z.max rest x
  end.

(** [Math.ceil(a / b)] for an integer [a] and a positive integer [b].  The
    quotient is a floating-point number; for integers that a streak can
    reach, its ceiling is the ceiling of the exact quotient. *)
Definition Math_ceil_div (a b : Z) : Z := - ((- a) / b).

(** [arr[i]], [undefined] outside the array. *)
Definition at_index {A : Type} (arr : list A) (i : Z) : option A :=
  if i <? 0 then None else nth_error arr (Z.to_nat i).

(** [arr[arr.length - 1] = v] on a non-empty array; on an empty array the
    assignment creates the property "-1" and leaves the elements alone. *)
Fixpoint set_last {A : Type} (arr : list A) (v : A) : list A :=
  match arr with
  | [] => []
  | [ _ ] => [v]
  | x :: rest => x :: set_last rest v
  end.

(** [`${n}`] and [String(n)] for an integer [n] below 10^21 in absolute
    value: its decimal digits, after a minus sign when it is negative. *)
Definition Number_toString (n : Z) : string :=
  NilZero.string_of_int (Z.to_int n).

End JSArray.

(** ** The engine *)

Module Streaks.
Import JSDate JSArray.

(** [type JournalEntry = { _id: string; createdAt: string }]. *)
Record JournalEntry : Type := {
  _id : string;
  createdAt : Z
}.

(** A calendar day [YYYY-MM-DD], as the number of its UTC day. *)
Abbreviation CalendarDay := Z (only parsing).

(** [interface StreakData]. *)
Record StreakData : Type := {
  currentStreak : Z;
  longestStreak : Z;
  lastEntryDate : option CalendarDay;
  streakDates : list CalendarDay
}.

(** [toDateString = (date) => new Date(date).toISOString().split("T")[0]]
    applied to a time value. *)
Definition toDateString (date : Z) : CalendarDay := isoDatePart date.

(** [getUniqueDates]. *)
Definition getUniqueDates (entries : list JournalEntry) : list CalendarDay :=
  sort (fun a b => localeCompare b a)
       (Set_spread (map (fun entry => toDateString (createdAt entry)) entries)).

Section Ambient.
Variable LocalTZA : Z -> bool -> Z.
Variable now : Z.

(** [addDays]. *)
Definition addDays (date : CalendarDay) (days : Z) : CalendarDay :=
  let newDate := parseDay date in
  let newDate := setDate LocalTZA newDate (getDate LocalTZA newDate + days) in
  toDateString newDate.

(** [daysBetween]: both arguments are day strings, so the difference of
    the time values is a multiple of a day and [Math.floor] of the quotient
    is the integer quotient. *)
Definition daysBetween (date1 date2 : CalendarDay) : Z :=
  (parseDay date1 - parseDay date2) / (1000 * 60 * 60 * 24).

Record CurrentStreak : Type := {
  streak : Z;
  dates : list CalendarDay
}.

(** [calculateCurrentStreak]. *)
Definition calculateCurrentStreak (entryDates : list CalendarDay)
  : CurrentStreak :=
  let today := toDateString now in
  let yesterday := addDays today (-1) in
  let hasEntryToday := includes entryDates today in
  let startDate := if hasEntryToday then today else yesterday in
  let generateConsecutiveDates (start : CalendarDay) :=
    from_length (List.length entryDates) (fun i => addDays start (- i)) in
  let consecutiveDates := generateConsecutiveDates startDate in
  let streakDates :=
    filter (fun date => includes entryDates date) consecutiveDates in
  let streakEndIndex :=
    findIndex (fun date => negb (includes entryDates date)) consecutiveDates in
  let streak :=
    if streakEndIndex =? -1 then Z.of_nat (List.length streakDates)
    else streakEndIndex in
  {| streak := streak;
     dates := rev (slice streakDates 0 streak) |}.

Record DatePair : Type := {
  date : CalendarDay;
  prevDate : option CalendarDay;
  isConsecutive : bool
}.

(** [daysBetween(entryDates[i], date) === 1]; with [entryDates[i]]
    undefined the difference is NaN and the test is false. *)
Definition isConsecutiveWith (prev : option CalendarDay) (d : CalendarDay)
  : bool :=
  match prev with
  | Some p => daysBetween p d =? 1
  | None => false
  end.

(** The reducer of [findLongestStreak]; [acc[acc.length - 1] || 1]
    replaces a falsy (0 or missing) last count by 1. *)
Definition streakStep (acc : list Z) (pair : DatePair) : list Z :=
  if isConsecutive pair then
    let lastCount :=
      match at_index acc (Z.of_nat (List.length acc) - 1) with
      | Some c => if c =? 0 then 1 else c
      | None => 1
      end in
    set_last acc (lastCount + 1)
  else acc ++ [1].

(** [findLongestStreak]. *)
Definition findLongestStreak (entryDates : list CalendarDay) : Z :=
  if (List.length entryDates =? 0)%nat then 0
  else
    let datePairs :=
      mapi (fun date i =>
              {| date := date;
                 prevDate := at_index entryDates i;
                 isConsecutive :=
                   isConsecutiveWith (at_index entryDates i) date |})
           (slice_from entryDates 1) in
    let streaks := reduce streakStep datePairs [1] in
    Math_max streaks.

(** [!entries?.length]: the collection is null, undefined or empty. *)
Definition noEntries (entries : option (list JournalEntry)) : bool :=
  match entries with
  | None => true
  | Some es => (List.length es =? 0)%nat
  end.

Definition theEntries (entries : option (list JournalEntry))
  : list JournalEntry :=
  match entries with
  | None => []
  | Some es => es
  end.

(** [calculateStreaks]. *)
Definition calculateStreaks (entries : option (list JournalEntry))
  : StreakData :=
  if noEntries entries then
    {| currentStreak := 0;
       longestStreak := 0;
       lastEntryDate := None;
       streakDates := [] |}
  else
    let entryDates := getUniqueDates (theEntries entries) in
    let cs := calculateCurrentStreak entryDates in
    let longestStreak := findLongestStreak entryDates in
    {| currentStreak := streak cs;
       longestStreak := longestStreak;
       lastEntryDate := at_index entryDates 0;
       streakDates := dates cs |}.

(** [isStreakActive]. *)
Definition isStreakActive (entries : option (list JournalEntry)) : bool :=
  if noEntries entries then false
  else
    let today := toDateString now in
    let yesterday := addDays today (-1) in
    let entryDates :=
      map (fun entry => toDateString (createdAt entry)) (theEntries entries) in
    includes entryDates today || includes entryDates yesterday.

(** [getStreakStatusMessage].  The object [messages] has the keys ["1"]
    and ["default"]; indexing it with a number other than 1 gives
    [undefined], which [??] replaces by [messages.default]. *)
Definition getStreakStatusMessage (data : StreakData) : string :=
  let currentStreak := currentStreak data in
  let lastEntryDate := lastEntryDate data in
  if currentStreak =? 0 then "Start your journaling streak today! âœ¨"%string
  else
    let hasEntryToday :=
      match lastEntryDate with
      | Some d => d =? toDateString now
      | None => false
      end in
    let messages_1 :=
      if hasEntryToday then "Great start! Keep it going tomorrow! ğŸ”¥"%string
      else "1 day streak - write today to continue! ğŸ’ª"%string in
    let messages_default :=
      if hasEntryToday then
        ("Amazing! " ++ Number_toString currentStreak
                     ++ " day streak! ğŸ”¥")%string
      else
        (Number_toString currentStreak
           ++ " day streak - write today to continue! ğŸ”¥")%string in
    if currentStreak =? 1 then messages_1 else messages_default.

End Ambient.

Record Milestone : Type := {
  daysUntil : Z;
  milestone : Z
}.

Definition milestones : list Z := [5; 10; 25; 50; 100; 200; 365; 500; 1000].

(** [getDaysUntilNextMilestone]. *)
Definition getDaysUntilNextMilestone (currentStreak : Z) : Milestone :=
  let nextMilestone :=
    match find (fun milestone => currentStreak <? milestone) milestones with
    | Some m => m
    | None => Math_ceil_div currentStreak 100 * 100
    end in
  {| daysUntil := nextMilestone - currentStreak;
     milestone := nextMilestone |}.

End Streaks.

(** ** Notions used to state the properties *)

Module StreaksSpec.
Import JSDate JSArray Streaks.

(** The longest prefix whose elements all satisfy [q]. *)
Fixpoint leading {A : Type} (q : A -> bool) (arr : list A) : list A :=
  match arr with
  | [] => []
  | x :: rest => if q x then x :: leading q rest else []
  end.

(** The comparator of [getUniqueDates]: [(a, b) => b.localeCompare(a)]. *)
Definition newestFirst (a b : Z) : Z := localeCompare b a.

(** The calendar days of the entries, in the order of the entries. *)
Definition entryDays (entries : list JournalEntry) : list CalendarDay :=
  map (fun entry => toDateString (createdAt entry)) entries.

(** The maximum calendar day over all entries, each [createdAt]
    truncated to its day; [None] when there is no entry. *)
Definition mostRecentDay (entries : list JournalEntry) : option CalendarDay :=
  match entryDays entries with
  | [] => None
  | d :: ds => Some (fold_left Z.max ds d)
  end.

(** The result for a collection without entries. *)
Definition zeroStreaks : StreakData :=
  {| currentStreak := 0;
     longestStreak := 0;
     lastEntryDate := None;
     streakDates := [] |}.

(** [k] days going back from [s]: [s, s-1, ..., s-k+1]. *)
Definition downFrom (s : CalendarDay) (k : nat) : list CalendarDay :=
  map (fun i => s - Z.of_nat i) (seq 0 k).

(** [k] days going forward from [a]: [a, a+1, ..., a+k-1]. *)
Definition upFrom (a : CalendarDay) (k : nat) : list CalendarDay :=
  map (fun i => a + Z.of_nat i) (seq 0 k).

(** The day the backward walk starts from. *)
Definition anchor (now : Z) (days : list CalendarDay) : CalendarDay :=
  if includes days (toDateString now) then toDateString now
  else toDateString now - 1.

(** Number of leading candidate days that have an entry. *)
Definition streakLen (now : Z) (days : list CalendarDay) : nat :=
  List.length
    (leading (includes days) (downFrom (anchor now days) (List.length days))).

(** The pair built by [findLongestStreak] for the day [d] at index [i] of
    [entryDates.slice(1)]. *)
Definition pairAt (entryDates : list CalendarDay) (d : CalendarDay) (i : Z)
  : DatePair :=
  {| date := d;
     prevDate := at_index entryDates i;
     isConsecutive := isConsecutiveWith (at_index entryDates i) d |}.

(** The longest run met while scanning [rest], where [cur] is the length
    of the run that ends at [prev]. *)
Fixpoint scan (prev : CalendarDay) (cur : Z) (rest : list CalendarDay) : Z :=
  match rest with
  | [] => cur
  | x :: r => Z.max cur (scan x (if prev - x =? 1 then cur + 1 else 1) r)
  end.

(** A run in a newest-first sequence: each day is exactly one day after
    the day that follows it. *)
Fixpoint isRun (l : list CalendarDay) : Prop :=
  match l with
  | [] => True
  | a :: r => match r with [] => True | b :: _ => a - b = 1 end /\ isRun r
  end.

(** The day the walk of [calculateCurrentStreak] starts from: today when
    it has an entry, otherwise yesterday. *)
Definition startDate (zone : Z -> bool -> Z) (now : Z)
           (days : list CalendarDay) : CalendarDay :=
  if includes days (toDateString now) then toDateString now
  else addDays zone (toDateString now) (-1).

(** Ascending and contiguous: each day is the previous one plus one
    calendar day. *)
Fixpoint contiguousAscending (l : list CalendarDay) : Prop :=
  match l with
  | [] => True
  | a :: r =>
      match r with [] => True | b :: _ => b = a + 1 end /\
      contiguousAscending r
  end.

(** The result [cs] is the backward walk through [days] anchored at the
    calendar day [a]: it counts the days [a], [a - 1], [a - 2], ... that
    have an entry, up to the first one that has none, and lists them
    oldest first. *)
Definition anchoredAt (days : list CalendarDay) (a : CalendarDay)
           (cs : CurrentStreak) : Prop :=
  (forall i, 0 <= i < streak cs -> In (a - i) days) /\
  (streak cs < Z.of_nat (List.length days) -> ~ In (a - streak cs) days) /\
  dates cs = upFrom (a - streak cs + 1) (Z.to_nat (streak cs)).

(** The instant [t] lies in the UTC day [d], from its midnight up to the
    next one. *)
Definition inUTCDay (d : CalendarDay) (t : Z) : Prop :=
  d * msPerDay <= t < (d + 1) * msPerDay.

(** The zone reads the local time of every UTC midnight back as that
    instant: no UTC midnight falls into the second pass of a local hour
    that occurs twice. *)
Definition midnightRoundTrip (zone : Z -> bool -> Z) : Prop :=
  forall d, UTC zone (LocalTime zone (parseDay d)) = parseDay d.

(** The calendar day shown by a wall clock in the local zone. *)
Definition localCalendarDay (zone : Z -> bool -> Z) (t : Z) : Z :=
  Day (LocalTime zone t).

(** The first element of [l] that is strictly greater than [n]. *)
Definition firstAbove (l : list Z) (n m : Z) : Prop :=
  exists pre post,
    l = pre ++ m :: post /\ n < m /\ Forall (fun x => x <= n) pre.

(** The messages of [getStreakStatusMessage]: for no streak, for a streak
    of [n] days that has today's entry, and for a streak of [n] days that
    still waits for today's entry. *)
Definition startMessage : string :=
  "Start your journaling streak today! âœ¨".

Definition celebration (n : Z) : string :=
  if n =? 1 then "Great start! Keep it going tomorrow! ğŸ”¥"
  else ("Amazing! " ++ Number_toString n ++ " day streak! ğŸ”¥")%string.

Definition reminder (n : Z) : string :=
  if n =? 1 then "1 day streak - write today to continue! ğŸ’ª"
  else (Number_toString n
          ++ " day streak - write today to continue! ğŸ”¥")%string.

(** A milestone number: a milestone of the table, or a multiple of 100
    from 1000 on. *)
Definition isMilestone (m : Z) : Prop :=
  In m milestones \/ (1000 <= m /\ m mod 100 = 0).

End StreaksSpec.

(** ** Sample data *)

Module Samples.
Import JSDate Streaks.

(** The time value of [y-m-dThh:mm:00Z] ([m] from 1). *)
Definition utc (y m d hh mm : Z) : Z :=
  MakeDate (MakeDay y (m - 1) d) ((hh * 60 + mm) * 60 * 1000).

Definition entryAt (y m d hh mm : Z) : JournalEntry :=
  {| _id := "entry"; createdAt := utc y m d hh mm |}.

(** An entry dated tomorrow and one dated today, for a clock on
    2025-09-21. *)
Definition futureEntries : list JournalEntry :=
  [entryAt 2025 9 22 0 30; entryAt 2025 9 21 9 0].

(** UTC-5, no daylight saving. *)
Definition utcMinus5 : Z -> bool -> Z := fixedOffset (- 5 * 60 * 60 * 1000).

(** America/New_York around the end of daylight saving time in 2025:
    UTC-4 until 2025-11-02T06:00Z (02:00 local time), UTC-5 from then on.
    A local time that occurs twice is read with the offset before the
    transition, as ECMAScript prescribes. *)
Definition newYork2025 (t : Z) (isUTC : bool) : Z :=
  let edt := - 4 * 60 * 60 * 1000 in
  let est := - 5 * 60 * 60 * 1000 in
  if isUTC then (if t <? utc 2025 11 2 6 0 then edt else est)
  else (if t <? utc 2025 11 2 2 0 then edt else est).

End Samples.

(** ** The runtime: strings of user text *)

Module JSString.
Import JSArray.

(** A JavaScript string holding user text is modelled by its sequence of
    UTF-16 code units ([list Z]).  [codeUnits] gives the code units of a
    literal made of ASCII characters. *)
Definition codeUnits (s : string) : list Z :=
  map (fun c => Z.of_N (N_of_ascii c)) (list_ascii_of_string s).

(** ECMAScript [WhiteSpace] and [LineTerminator] code points, the ones
    [String.prototype.trim] removes: TAB, LF, VT, FF, CR, SP, NBSP, the
    other space separators (U+1680, U+2000 to U+200A, U+202F, U+205F,
    U+3000), LS, PS and ZWNBSP. *)
Definition isWhiteSpace (c : Z) : bool :=
  existsb (Z.eqb c)
          [9; 10; 11; 12; 13; 32; 160; 5760; 8232; 8233; 8239; 8287; 12288;
           65279]
  || ((8192 <=? c) && (c <=? 8202)).

Fixpoint trimStart (s : list Z) : list Z :=
  match s with
  | [] => []
  | c :: rest => if isWhiteSpace c then trimStart rest else s
  end.

Definition trimEnd (s : list Z) : list Z := rev (trimStart (rev s)).

(** [s.trim()]. *)
Definition trim (s : list Z) : list Z := trimEnd (trimStart s).

(** A string is falsy exactly when it is empty. *)
Definition isEmptyString (s : list Z) : bool :=
  match s with
  | [] => true
  | _ :: _ => false
  end.

Fixpoint startsWith (pattern s : list Z) : bool :=
  match pattern, s with
  | [], _ => true
  | _ :: _, [] => false
  | p :: pattern', c :: s' => (p =? c) && startsWith pattern' s'
  end.

(** [s.replace(pattern, replacement)] for a string pattern and a
    replacement without [$]: the first occurrence is replaced. *)
Fixpoint replaceFirst (pattern replacement s : list Z) : list Z :=
  if startsWith pattern s then
    replacement ++ skipn (List.length pattern) s
  else
    match s with
    | [] => []
    | c :: rest => c :: replaceFirst pattern replacement rest
    end.

End JSString.

(** ** The entry form ([src/components/JournalEntryForm.tsx]) *)

Module EntryForm.
Import JSArray JSString.

(** [interface JournalImage]. *)
Record JournalImage : Type := {
  uri : list Z;
  caption : option (list Z);
  alt : option (list Z)
}.

(** [arr.filter((x, i) => p x i)]. *)
Fixpoint filteri_from {A : Type} (p : A -> Z -> bool) (i : Z) (arr : list A)
  : list A :=
  match arr with
  | [] => []
  | x :: rest =>
      if p x i then x :: filteri_from p (i + 1) rest
      else filteri_from p (i + 1) rest
  end.

(** [removeImage]: the new value of the state [images]. *)
Definition removeImage (images : list JournalImage) (index : Z)
  : list JournalImage :=
  filteri_from (fun _ i => negb (i =? index)) 0 images.

(** [arr[i] = v] for an index inside the array. *)
Fixpoint setAt {A : Type} (arr : list A) (i : nat) (v : A) : list A :=
  match arr, i with
  | [], _ => []
  | _ :: rest, O => v :: rest
  | x :: rest, S i' => x :: setAt rest i' v
  end.

Inductive Thrown : Type := TypeError.

(** [updateImageCaption]: the new value of the state [images], or the
    [TypeError] of assigning to a property of [undefined] when
    [newImages[index]] is not an element. *)
Definition updateImageCaption (images : list JournalImage) (index : Z)
           (newCaption : list Z) : Thrown + list JournalImage :=
  let newImages := images in
  match at_index newImages index with
  | None => inl TypeError
  | Some image =>
      inr (setAt newImages (Z.to_nat index)
                 {| uri := uri image;
                    caption := Some newCaption;
                    alt := alt image |})
  end.

(** The [user] of [useUser()], of which only [id] is read. *)
Record User : Type := { id : list Z }.

(** The object passed to [onSave]. *)
Record Entry : Type := {
  title : option (list Z);
  content : list Z;
  images : list JournalImage;
  mood : list Z;
  userId : list Z
}.

(** What [handleSave] does, in order. *)
Inductive Effect : Type :=
| Alert_alert (heading message : string)
| setIsSaving (value : bool)
| onSave (entry : Entry).

Inductive Settled : Type := Fulfilled | Rejected.

(** [handleSave], from the state of the form ([title], [content], [mood],
    [images]), the signed-in user and the way the promise of [onSave]
    settles: the effects performed and the way the promise of
    [handleSave] settles. *)
Definition handleSave (title content mood : list Z)
           (images : list JournalImage) (user : option User)
           (saved : Settled) : list Effect * Settled :=
  if isEmptyString (trim content) then
    ([Alert_alert "Missing content"
                  "Please write something in your journal entry"],
     Fulfilled)
  else if isEmptyString mood then
    ([Alert_alert "Missing mood" "Please select how you're feeling."],
     Fulfilled)
  else
    match user with
    | Some u =>
        if isEmptyString (id u) then
          ([Alert_alert "Authentication error"
                        "Please sign in to save your journal entry."],
           Fulfilled)
        else
          ([setIsSaving true;
            onSave {| title := if isEmptyString (trim title) then None
                               else Some (trim title);
                      content := trim content;
                      images := images;
                      mood := mood;
                      userId := id u |};
            setIsSaving false],
           saved)
    | None =>
        ([Alert_alert "Authentication error"
                      "Please sign in to save your journal entry."],
         Fulfilled)
    end.

End EntryForm.

(** ** The document preview ([src/lib/sanity/client.ts]) *)

Module SanityPreview.
Import JSArray JSString.

(** The part of the [content] argument of [prepare] that is read. *)
Record Child : Type := { text : option (list Z) }.

Record Block : Type := {
  _type : string;
  children : option (list Child)
}.

(** [content?.[0]?.children?.[0]?.text]. *)
Definition firstText (content : option (list Block)) : option (list Z) :=
  match content with
  | Some (block :: _) =>
      match children block with
      | Some (child :: _) => text child
      | _ => None
      end
  | _ => None
  end.

(** [const preview = ...?.text?.slice(0, 50) || 'No content']. *)
Definition preview (content : option (list Block)) : list Z :=
  match firstText content with
  | Some t =>
      let cut := slice t 0 50 in
      if isEmptyString cut then codeUnits "No content" else cut
  | None => codeUnits "No content"
  end.

(** The [subtitle] returned by [prepare]. *)
Definition subtitle (content : option (list Block)) : list Z :=
  let preview := preview content in
  preview ++ (if 50 <=? Z.of_nat (List.length preview) then codeUnits "..."
              else codeUnits "").

End SanityPreview.

(** ** API URLs ([src/lib/utils/generateAPIUrl.ts]) *)

Module ApiUrl.
Import JSString.

(** [generateAPIUrl], with [Constants.experienceUrl] as a parameter. *)
Definition generateAPIUrl (experienceUrl relativePath : list Z) : list Z :=
  let origin :=
    replaceFirst (codeUnits "exp://") (codeUnits "https://") experienceUrl in
  origin ++ relativePath.

End ApiUrl.

(** ** Vocabulary for the statements about the form and the URL *)

Module FormSpec.
Import JSString EntryForm.

(** A string without white space at either end. *)
Definition trimmed (t : list Z) : Prop :=
  (forall c rest, t = c :: rest -> isWhiteSpace c = false) /\
  (forall front c, t = front ++ [c] -> isWhiteSpace c = false).

(** [t] is [s] without a prefix and a suffix made of white space only,
    and has no white space left at either end. *)
Definition trimOf (s t : list Z) : Prop :=
  exists l r,
    s = l ++ t ++ r /\
    forallb isWhiteSpace l = true /\ forallb isWhiteSpace r = true /\
    trimmed t.

(** The state of the form that [handleSave] accepts: the content has a
    character that is not white space, a mood is selected, and a user with
    a non-empty id is signed in. *)
Definition canSave (content mood : list Z) (user : option User) : Prop :=
  forallb isWhiteSpace content = false /\ mood <> [] /\
  exists u, user = Some u /\ id u <> [].

(** [pattern] occurs in [s]. *)
Definition occurs (pattern s : list Z) : Prop :=
  exists pre post, s = pre ++ pattern ++ post.

(** [s] is [pre], then [pattern], then [post], and [pattern] occurs nowhere
    in [s] before that. *)
Definition firstOccurrence (pattern s pre post : list Z) : Prop :=
  s = pre ++ pattern ++ post /\
  forall pre' post',
    s = pre' ++ pattern ++ post' -> (List.length pre <= List.length pre')%nat.

End FormSpec.

(** ** Facts about the runtime *)

Module JSDateFacts.
Import JSDate.

Lemma msPerDay_pos : 0 < msPerDay.
Proof. reflexivity. Qed.

Lemma Day_parseDay (d : Z) : Day (parseDay d) = d.
Proof.
  unfold Day, parseDay, MakeDate.
  rewrite Z.add_0_r. apply Z.div_mul. discriminate.
Qed.

(** A time value lies in the UTC day [Day t]. *)
Lemma Day_interval (t : Z) :
  Day t * msPerDay <= t < (Day t + 1) * msPerDay.
Proof.
  unfold Day. pose proof msPerDay_pos as Hpos.
  pose proof (Z.div_mod t msPerDay) as Hdm.
  pose proof (Z.mod_pos_bound t msPerDay Hpos) as Hmod. lia.
Qed.

Lemma Day_unique (t d : Z) :
  d * msPerDay <= t < (d + 1) * msPerDay -> Day t = d.
Proof.
  intros Hint. pose proof (Day_interval t) as Hday.
  pose proof msPerDay_pos as Hpos. nia.
Qed.

Lemma Day_shift (t n : Z) : Day (t + n * msPerDay) = Day t + n.
Proof. unfold Day. apply Z.div_add. discriminate. Qed.

Lemma DayFromYear_cycle (y : Z) :
  146097 * (y - 1970) - 800 < 400 * DayFromYear y
  < 146097 * (y - 1970) + 800.
Proof. unfold DayFromYear. Z.div_mod_to_equations. lia. Qed.

(** [YearFromDay d] is the year whose days include day [d]. *)
Lemma YearFromDay_spec (d : Z) :
  DayFromYear (YearFromDay d) <= d < DayFromYear (YearFromDay d + 1).
Proof.
  unfold YearFromDay. cbv zeta.
  set (y := 1970 + 400 * d / 146097).
  assert (Hy : 146097 * (y - 1970) <= 400 * d < 146097 * (y - 1970) + 146097)
    by (unfold y; Z.div_mod_to_equations; lia).
  clearbody y.
  pose proof (DayFromYear_cycle (y - 1)) as Hprev.
  pose proof (DayFromYear_cycle (y + 2)) as Hnext.
  destruct (Z.leb_spec (DayFromYear (y + 1)) d) as [Hle1 | Hlt1].
  - replace (y + 1 + 1) with (y + 2) by lia. lia.
  - destruct (Z.leb_spec (DayFromYear y) d) as [Hle0 | Hlt0].
    + lia.
    + replace (y - 1 + 1) with y by lia. lia.
Qed.

Lemma MonthFromTime_range (t : Z) : 0 <= MonthFromTime t <= 11.
Proof.
  unfold MonthFromTime.
  set (p := fun s => s <=? DayWithinYear t).
  set (tbl := tl (monthTable (InLeapYear (YearFromTime t)))).
  pose proof (filter_length_le p tbl) as Hle.
  assert (Hlen : List.length tbl = 11%nat)
    by (unfold tbl; destruct (InLeapYear (YearFromTime t)); reflexivity).
  lia.
Qed.

(** Replacing the day of the month by itself plus [n] moves the day
    number by [n], whatever the month and the year are. *)
Lemma MakeDay_DateFromTime (t n : Z) :
  MakeDay (YearFromTime t) (MonthFromTime t) (DateFromTime t + n) = Day t + n.
Proof.
  pose proof (MonthFromTime_range t) as Hm.
  unfold MakeDay.
  rewrite Z.div_small, Z.mod_small by lia.
  rewrite Z.add_0_r.
  unfold DateFromTime, DayWithinYear. lia.
Qed.

Lemma setDate_getDate (tza t n : Z) :
  setDate (fixedOffset tza) t (getDate (fixedOffset tza) t + n)
  = t + n * msPerDay.
Proof.
  unfold setDate, getDate. cbv zeta.
  rewrite MakeDay_DateFromTime.
  unfold UTC, MakeDate, LocalTime, TimeWithinDay, Day, fixedOffset.
  pose proof (Z.div_mod (t + tza) msPerDay) as Hdm.
  pose proof msPerDay_pos. lia.
Qed.

End JSDateFacts.

Module JSArrayFacts.
Import JSArray Streaks StreaksSpec.

Lemma includes_In (arr : list Z) (x : Z) : includes arr x = true <-> In x arr.
Proof.
  unfold includes. rewrite existsb_exists. split.
  - intros [y [Hin Heq]]. apply Z.eqb_eq in Heq. subst. exact Hin.
  - intros Hin. exists x. split; [exact Hin | apply Z.eqb_refl].
Qed.

Lemma includes_false (arr : list Z) (x : Z) :
  includes arr x = false <-> ~ In x arr.
Proof.
  rewrite <- includes_In. destruct (includes arr x); split; congruence.
Qed.

(** *** [Set] *)

Lemma Set_add_In (s : list Z) (x z : Z) :
  In z (Set_add s x) <-> In z s \/ z = x.
Proof.
  unfold Set_add. destruct (includes s x) eqn:Hinc.
  - apply includes_In in Hinc. split; [tauto | intros [H | ->]; assumption].
  - rewrite in_app_iff. simpl. intuition.
Qed.

Lemma Set_add_NoDup (s : list Z) (x : Z) : NoDup s -> NoDup (Set_add s x).
Proof.
  intros Hnd. unfold Set_add. destruct (includes s x) eqn:Hinc; [exact Hnd|].
  apply includes_false in Hinc.
  apply NoDup_rev in Hnd. rewrite <- (rev_involutive (s ++ [x])).
  apply NoDup_rev. rewrite rev_app_distr. simpl.
  constructor; [rewrite <- in_rev; exact Hinc | exact Hnd].
Qed.

Lemma fold_Set_add_In (arr s : list Z) (z : Z) :
  In z (fold_left Set_add arr s) <-> In z s \/ In z arr.
Proof.
  revert s. induction arr as [|x arr IH]; intros s; simpl.
  - tauto.
  - rewrite IH, Set_add_In. intuition.
Qed.

Lemma fold_Set_add_NoDup (arr s : list Z) :
  NoDup s -> NoDup (fold_left Set_add arr s).
Proof.
  revert s. induction arr as [|x arr IH]; intros s Hnd; simpl.
  - exact Hnd.
  - apply IH, Set_add_NoDup, Hnd.
Qed.

Lemma Set_spread_In (arr : list Z) (z : Z) :
  In z (Set_spread arr) <-> In z arr.
Proof. unfold Set_spread. rewrite fold_Set_add_In. simpl. tauto. Qed.

Lemma Set_spread_NoDup (arr : list Z) : NoDup (Set_spread arr).
Proof. apply fold_Set_add_NoDup. constructor. Qed.

(** *** [sort] with the comparator [(a, b) => b.localeCompare(a)] *)

Lemma newestFirst_le (x y : Z) : (newestFirst x y <=? 0) = (y <=? x).
Proof.
  unfold newestFirst, localeCompare.
  destruct (y ?= x) eqn:Hc.
  - apply Z.compare_eq in Hc. subst. symmetry. apply Z.leb_refl.
  - rewrite Z.compare_lt_iff in Hc. symmetry. apply Z.leb_le. lia.
  - rewrite Z.compare_gt_iff in Hc. symmetry. apply Z.leb_gt. lia.
Qed.

Lemma sort_insert_Permutation (cmp : Z -> Z -> Z) (x : Z) (l : list Z) :
  Permutation (x :: l) (sort_insert cmp x l).
Proof.
  induction l as [|y l IH]; simpl.
  - apply Permutation_refl.
  - destruct (cmp x y <=? 0).
    + apply Permutation_refl.
    + eapply perm_trans; [apply perm_swap|]. apply perm_skip, IH.
Qed.

Lemma sort_Permutation (cmp : Z -> Z -> Z) (l : list Z) :
  Permutation l (sort cmp l).
Proof.
  induction l as [|x l IH]; simpl.
  - apply perm_nil.
  - eapply perm_trans; [apply perm_skip, IH|].
    apply sort_insert_Permutation.
Qed.

Lemma sort_In (cmp : Z -> Z -> Z) (l : list Z) (z : Z) :
  In z (sort cmp l) <-> In z l.
Proof.
  split; apply Permutation_in;
    [apply Permutation_sym|]; apply sort_Permutation.
Qed.

Lemma sort_NoDup (cmp : Z -> Z -> Z) (l : list Z) :
  NoDup l -> NoDup (sort cmp l).
Proof. apply Permutation_NoDup, sort_Permutation. Qed.

Lemma sort_insert_descending (x : Z) (l : list Z) :
  StronglySorted Z.ge l -> StronglySorted Z.ge (sort_insert newestFirst x l).
Proof.
  induction 1 as [|y l Hs IH Hall]; simpl.
  - constructor; constructor.
  - rewrite newestFirst_le. destruct (y <=? x) eqn:Hle.
    + apply Z.leb_le in Hle. constructor.
      * constructor; assumption.
      * constructor; [lia|].
        eapply Forall_impl; [|exact Hall]. intros z Hz. simpl in Hz. lia.
    + apply Z.leb_gt in Hle. constructor; [exact IH|].
      rewrite Forall_forall in *. intros z Hz.
      apply (Permutation_in _ (Permutation_sym (sort_insert_Permutation _ _ _)))
        in Hz.
      destruct Hz as [<- | Hz]; [lia | apply Hall, Hz].
Qed.

Lemma sort_descending (l : list Z) :
  StronglySorted Z.ge (sort newestFirst l).
Proof.
  induction l as [|x l IH]; simpl.
  - constructor.
  - apply sort_insert_descending, IH.
Qed.

Lemma descending_NoDup_strict (l : list Z) :
  StronglySorted Z.ge l -> NoDup l -> StronglySorted Z.gt l.
Proof.
  induction 1 as [|y l Hs IH Hall]; intros Hnd.
  - constructor.
  - inversion Hnd as [|? ? Hnotin Hnd']; subst.
    constructor; [apply IH, Hnd'|].
    rewrite Forall_forall in *. intros z Hz.
    specialize (Hall z Hz).
    assert (z <> y) by (intros ->; contradiction). lia.
Qed.

(** *** [findIndex], [filter] and [slice] on a leading segment *)

Lemma leading_all {A : Type} (q : A -> bool) (arr : list A) :
  forallb q arr = true -> leading q arr = arr /\ filter q arr = arr.
Proof.
  induction arr as [|x arr IH]; simpl; intros Hall.
  - split; reflexivity.
  - apply andb_true_iff in Hall. destruct Hall as [Hx Hall].
    rewrite Hx. destruct (IH Hall) as [-> ->]. split; reflexivity.
Qed.

Lemma findIndex_bounds {A : Type} (p : A -> bool) (arr : list A) :
  -1 <= findIndex p arr < Z.of_nat (List.length arr).
Proof.
  induction arr as [|x arr IH]; simpl.
  - lia.
  - destruct (p x); [lia|].
    destruct (findIndex p arr =? -1) eqn:Hr; [lia|].
    apply Z.eqb_neq in Hr. lia.
Qed.

Lemma findIndex_none {A : Type} (q : A -> bool) (arr : list A) :
  findIndex (fun x => negb (q x)) arr = -1 <-> forallb q arr = true.
Proof.
  induction arr as [|x arr IH]; simpl.
  - tauto.
  - destruct (q x); simpl.
    + destruct (findIndex (fun x => negb (q x)) arr =? -1) eqn:Hr.
      * apply Z.eqb_eq in Hr. tauto.
      * apply Z.eqb_neq in Hr.
        assert (forallb q arr <> true) by tauto.
        split; [|congruence]. intros Heq.
        pose proof (findIndex_bounds (fun x => negb (q x)) arr). lia.
    + split; discriminate.
Qed.

Lemma findIndex_leading {A : Type} (q : A -> bool) (arr : list A) :
  findIndex (fun x => negb (q x)) arr <> -1 ->
  findIndex (fun x => negb (q x)) arr = Z.of_nat (List.length (leading q arr)).
Proof.
  induction arr as [|x arr IH]; simpl.
  - congruence.
  - destruct (q x); simpl; [|reflexivity].
    destruct (findIndex (fun x => negb (q x)) arr =? -1) eqn:Hr.
    + congruence.
    + apply Z.eqb_neq in Hr. intros _. rewrite (IH Hr). lia.
Qed.

Lemma leading_filter {A : Type} (q : A -> bool) (arr : list A) :
  firstn (List.length (leading q arr)) (filter q arr) = leading q arr.
Proof.
  induction arr as [|x arr IH]; simpl.
  - reflexivity.
  - destruct (q x); simpl; [rewrite IH|]; reflexivity.
Qed.

Lemma leading_prefix {A : Type} (q : A -> bool) (arr : list A) :
  leading q arr = firstn (List.length (leading q arr)) arr.
Proof.
  induction arr as [|x arr IH]; simpl.
  - reflexivity.
  - destruct (q x); simpl; [rewrite <- IH|]; reflexivity.
Qed.

Lemma leading_length {A : Type} (q : A -> bool) (arr : list A) :
  (List.length (leading q arr) <= List.length arr)%nat.
Proof.
  induction arr as [|x arr IH]; simpl; [|destruct (q x); simpl]; lia.
Qed.

Lemma leading_Forall {A : Type} (q : A -> bool) (arr : list A) :
  Forall (fun x => q x = true) (leading q arr).
Proof.
  induction arr as [|x arr IH]; simpl.
  - constructor.
  - destruct (q x) eqn:Hq; constructor; assumption.
Qed.

(** The element after the leading segment, when there is one, fails [q]. *)
Lemma leading_stop {A : Type} (q : A -> bool) (arr : list A) (x : A) :
  nth_error arr (List.length (leading q arr)) = Some x -> q x = false.
Proof.
  induction arr as [|y arr IH]; simpl.
  - discriminate.
  - destruct (q y) eqn:Hq; simpl.
    + exact IH.
    + intros [= <-]. exact Hq.
Qed.

Lemma slice_prefix {A : Type} (arr : list A) (k : nat) :
  (k <= List.length arr)%nat -> slice arr 0 (Z.of_nat k) = firstn k arr.
Proof.
  intros Hk. unfold slice, relIndex.
  change (0 <? 0) with false. cbv iota.
  destruct (Z.of_nat k <? 0) eqn:Hneg; [apply Z.ltb_lt in Hneg; lia|].
  rewrite (Z.min_l 0), (Z.min_l (Z.of_nat k)) by lia.
  rewrite Z.sub_0_r, Nat2Z.id. reflexivity.
Qed.

Lemma slice_from_1 {A : Type} (arr : list A) : slice_from arr 1 = tl arr.
Proof.
  unfold slice_from, slice, relIndex.
  destruct arr as [|x arr]; [reflexivity|].
  set (len := Z.of_nat (List.length (x :: arr))).
  assert (Hlen : len = Z.of_nat (List.length arr) + 1)
    by (unfold len; simpl List.length; lia).
  change (1 <? 0) with false. cbv iota.
  destruct (len <? 0) eqn:Hneg; [apply Z.ltb_lt in Hneg; lia|].
  rewrite Z.min_id, Z.min_l by lia.
  change (Z.to_nat 1) with 1%nat. simpl skipn.
  replace (Z.to_nat (len - 1)) with (List.length arr) by lia.
  apply firstn_all.
Qed.

(** The inclusive filter applied by the engine returns exactly the
    leading segment when cut at the index of the first gap. *)
Lemma streak_cut {A : Type} (q : A -> bool) (arr : list A) :
  let streakEndIndex := findIndex (fun x => negb (q x)) arr in
  let streak :=
    if streakEndIndex =? -1 then Z.of_nat (List.length (filter q arr))
    else streakEndIndex in
  streak = Z.of_nat (List.length (leading q arr)) /\
  slice (filter q arr) 0 streak = leading q arr.
Proof.
  cbv zeta.
  destruct (findIndex (fun x => negb (q x)) arr =? -1) eqn:Hr.
  - apply Z.eqb_eq, findIndex_none, leading_all in Hr.
    destruct Hr as [Hlead Hfilter]. rewrite Hfilter, Hlead.
    split; [reflexivity|].
    rewrite slice_prefix by lia. apply firstn_all.
  - apply Z.eqb_neq in Hr. rewrite (findIndex_leading q arr Hr).
    split; [reflexivity|].
    rewrite slice_prefix.
    + apply leading_filter.
    + rewrite <- (leading_filter q arr) at 1. rewrite length_firstn. lia.
Qed.

End JSArrayFacts.

(** ** Facts about the engine's helpers *)

Module StreaksFacts.
Import JSDate JSArray Streaks StreaksSpec JSDateFacts JSArrayFacts.

(** With a constant zone offset [addDays] is plain day arithmetic, in
    every zone. *)
Lemma addDays_plus (tza : Z) (d : CalendarDay) (n : Z) :
  addDays (fixedOffset tza) d n = d + n.
Proof.
  unfold addDays. cbv zeta. rewrite setDate_getDate.
  unfold toDateString, isoDatePart. rewrite Day_shift, Day_parseDay.
  reflexivity.
Qed.

Lemma daysBetween_minus (a b : CalendarDay) : daysBetween a b = a - b.
Proof.
  unfold daysBetween, parseDay, MakeDate.
  change (1000 * 60 * 60 * 24) with msPerDay.
  replace (a * msPerDay + 0 - (b * msPerDay + 0)) with ((a - b) * msPerDay)
    by lia.
  apply Z.div_mul. discriminate.
Qed.

(** *** [getUniqueDates] *)

Lemma getUniqueDates_In (entries : list JournalEntry) (d : CalendarDay) :
  In d (getUniqueDates entries) <-> In d (entryDays entries).
Proof.
  unfold getUniqueDates. rewrite sort_In, Set_spread_In. reflexivity.
Qed.

Lemma getUniqueDates_descending (entries : list JournalEntry) :
  StronglySorted Z.gt (getUniqueDates entries).
Proof.
  unfold getUniqueDates. apply descending_NoDup_strict.
  - apply sort_descending.
  - apply sort_NoDup, Set_spread_NoDup.
Qed.

Lemma getUniqueDates_nil (entries : list JournalEntry) :
  getUniqueDates entries = [] <-> entries = [].
Proof.
  split.
  - intros Hnil. destruct entries as [|e entries]; [reflexivity|].
    assert (Hin : In (toDateString (createdAt e))
                     (getUniqueDates (e :: entries)))
      by (apply getUniqueDates_In; left; reflexivity).
    rewrite Hnil in Hin. destruct Hin.
  - intros ->. reflexivity.
Qed.

(** *** Day ranges *)

Lemma downFrom_length (s : CalendarDay) (k : nat) :
  List.length (downFrom s k) = k.
Proof. unfold downFrom. rewrite length_map, length_seq. reflexivity. Qed.

Lemma upFrom_length (a : CalendarDay) (k : nat) : List.length (upFrom a k) = k.
Proof. unfold upFrom. rewrite length_map, length_seq. reflexivity. Qed.

Lemma downFrom_S (s : CalendarDay) (k : nat) :
  downFrom s (S k) = s :: downFrom (s - 1) k.
Proof.
  unfold downFrom. cbn [seq map]. rewrite <- seq_shift, map_map.
  change (Z.of_nat 0) with 0. rewrite Z.sub_0_r.
  apply (f_equal (cons s)). apply map_ext. intros i. lia.
Qed.

Lemma upFrom_snoc (a : CalendarDay) (k : nat) :
  upFrom a (S k) = upFrom a k ++ [a + Z.of_nat k].
Proof. unfold upFrom. rewrite seq_S, map_app. reflexivity. Qed.

Lemma rev_downFrom (k : nat) (s : CalendarDay) :
  rev (downFrom s k) = upFrom (s - Z.of_nat k + 1) k.
Proof.
  revert s. induction k as [|k IH]; intros s.
  - reflexivity.
  - rewrite downFrom_S, upFrom_snoc. simpl rev. rewrite IH.
    f_equal; [f_equal|f_equal]; lia.
Qed.

Lemma downFrom_In (s : CalendarDay) (k : nat) (d : CalendarDay) :
  In d (downFrom s k) <-> s - Z.of_nat k < d <= s.
Proof.
  unfold downFrom. rewrite in_map_iff. split.
  - intros [i [<- Hi]]. apply in_seq in Hi. lia.
  - intros Hd. exists (Z.to_nat (s - d)). split; [lia|].
    apply in_seq. lia.
Qed.

Lemma firstn_downFrom (s : CalendarDay) (k n : nat) :
  (k <= n)%nat -> firstn k (downFrom s n) = downFrom s k.
Proof.
  revert s n. induction k as [|k IH]; intros s n Hk.
  - reflexivity.
  - destruct n as [|n]; [lia|].
    rewrite !downFrom_S. simpl. rewrite IH by lia. reflexivity.
Qed.

Lemma nth_error_downFrom (s : CalendarDay) (k n : nat) :
  (k < n)%nat -> nth_error (downFrom s n) k = Some (s - Z.of_nat k).
Proof.
  revert s n. induction k as [|k IH]; intros s n Hk;
    (destruct n as [|n]; [lia|]); rewrite downFrom_S; simpl.
  - f_equal. lia.
  - rewrite IH by lia. f_equal. lia.
Qed.

(** The candidate days generated by [calculateCurrentStreak]. *)
Lemma generateConsecutiveDates_downFrom (tza : Z) (start : CalendarDay)
      (n : nat) :
  from_length n (fun i => addDays (fixedOffset tza) start (- i))
  = downFrom start n.
Proof.
  unfold from_length, downFrom. apply map_ext. intros i.
  rewrite addDays_plus. lia.
Qed.

(** *** [calculateCurrentStreak] *)

Lemma streakLen_le (now : Z) (days : list CalendarDay) :
  (streakLen now days <= List.length days)%nat.
Proof.
  unfold streakLen.
  pose proof (leading_length (includes days)
                (downFrom (anchor now days) (List.length days))) as Hle.
  rewrite downFrom_length in Hle. exact Hle.
Qed.

Lemma streak_leading (now : Z) (days : list CalendarDay) :
  leading (includes days) (downFrom (anchor now days) (List.length days))
  = downFrom (anchor now days) (streakLen now days).
Proof.
  rewrite leading_prefix. fold (streakLen now days).
  apply firstn_downFrom, streakLen_le.
Qed.

Lemma calculateCurrentStreak_shape (tza now : Z) (days : list CalendarDay) :
  calculateCurrentStreak (fixedOffset tza) now days =
  {| streak := Z.of_nat (streakLen now days);
     dates := upFrom (anchor now days - Z.of_nat (streakLen now days) + 1)
                     (streakLen now days) |}.
Proof.
  unfold calculateCurrentStreak. cbv beta zeta.
  rewrite addDays_plus.
  change (toDateString now + -1) with (toDateString now - 1).
  fold (anchor now days). rewrite generateConsecutiveDates_downFrom.
  match goal with
  | |- context [filter ?f _] => change f with (includes days)
  end.
  destruct (streak_cut (includes days)
              (downFrom (anchor now days) (List.length days))) as [Hlen Hcut].
  cbv zeta in Hlen, Hcut. fold (streakLen now days) in Hlen.
  rewrite Hlen in Hcut |- *. rewrite Hcut, streak_leading, rev_downFrom.
  reflexivity.
Qed.

Lemma streak_days_In (now : Z) (days : list CalendarDay) (i : Z) :
  0 <= i < Z.of_nat (streakLen now days) -> In (anchor now days - i) days.
Proof.
  intros Hi.
  pose proof (leading_Forall (includes days)
                (downFrom (anchor now days) (List.length days))) as Hall.
  rewrite streak_leading, Forall_forall in Hall.
  apply includes_In, Hall, downFrom_In. lia.
Qed.

Lemma streak_stop (now : Z) (days : list CalendarDay) :
  (streakLen now days < List.length days)%nat ->
  ~ In (anchor now days - Z.of_nat (streakLen now days)) days.
Proof.
  intros Hlt. apply includes_false.
  apply (leading_stop (includes days)
           (downFrom (anchor now days) (List.length days))).
  fold (streakLen now days). apply nth_error_downFrom, Hlt.
Qed.

Lemma streak_pos_iff (now : Z) (days : list CalendarDay) :
  (0 < streakLen now days)%nat <-> In (anchor now days) days.
Proof.
  split.
  - intros Hpos. rewrite <- (Z.sub_0_r (anchor now days)).
    apply streak_days_In. lia.
  - intros Hin. destruct (streakLen now days) as [|k] eqn:Hk; [|lia].
    exfalso. destruct days as [|d days]; [destruct Hin|].
    pose proof (streak_stop now (d :: days)) as Hstop.
    rewrite Hk in Hstop. simpl in Hstop. rewrite Z.sub_0_r in Hstop.
    apply Hstop; [lia | exact Hin].
Qed.

(** *** [findLongestStreak] *)

Lemma scan_ge (rest : list CalendarDay) (prev : CalendarDay) (cur : Z) :
  cur <= scan prev cur rest.
Proof. destruct rest; simpl; lia. Qed.

Lemma Math_max_merge (l : list Z) (a b : Z) :
  Math_max (l ++ [a; b]) = Math_max (l ++ [Z.max a b]).
Proof.
  destruct l as [|h t]; simpl.
  - reflexivity.
  - rewrite !fold_left_app. simpl. lia.
Qed.

Lemma at_index_last {A : Type} (done : list A) (c : A) :
  at_index (done ++ [c]) (Z.of_nat (List.length (done ++ [c])) - 1) = Some c.
Proof.
  unfold at_index. rewrite length_app. simpl List.length.
  destruct (_ <? 0) eqn:Hneg; [apply Z.ltb_lt in Hneg; lia|].
  replace (Z.to_nat _) with (List.length done + 0)%nat by lia.
  rewrite nth_error_app2 by lia.
  replace (_ - _)%nat with 0%nat by lia. reflexivity.
Qed.

Lemma set_last_snoc {A : Type} (done : list A) (c v : A) :
  set_last (done ++ [c]) v = done ++ [v].
Proof.
  induction done as [|x done IH]; [reflexivity|].
  simpl. rewrite IH. destruct done; reflexivity.
Qed.

(** The reducer never leaves the accumulator empty and, on counts that
    are at least 1, either extends the last run or opens a new one. *)
Lemma streakStep_snoc (done : list Z) (cur : Z) (pair : DatePair) :
  1 <= cur ->
  streakStep (done ++ [cur]) pair =
  if isConsecutive pair then done ++ [cur + 1] else (done ++ [cur]) ++ [1].
Proof.
  intros Hcur. unfold streakStep. destruct (isConsecutive pair); [|reflexivity].
  rewrite at_index_last.
  destruct (cur =? 0) eqn:H0; [apply Z.eqb_eq in H0; lia|].
  apply set_last_snoc.
Qed.

Lemma at_index_middle {A : Type} (pre : list A) (p : A) (rest : list A) :
  at_index (pre ++ p :: rest) (Z.of_nat (List.length pre)) = Some p.
Proof.
  unfold at_index.
  destruct (_ <? 0) eqn:Hneg; [apply Z.ltb_lt in Hneg; lia|].
  rewrite Nat2Z.id, nth_error_app2 by lia.
  rewrite Nat.sub_diag. reflexivity.
Qed.

Lemma reduce_scan (rest pre : list CalendarDay) (prev : CalendarDay)
      (cur : Z) (done : list Z) :
  1 <= cur ->
  Math_max
    (reduce streakStep
       (mapi_from (pairAt (pre ++ prev :: rest))
                  (Z.of_nat (List.length pre)) rest)
       (done ++ [cur]))
  = Math_max (done ++ [scan prev cur rest]).
Proof.
  unfold reduce. revert pre prev cur done.
  induction rest as [|x rest IH]; intros pre prev cur done Hcur.
  - reflexivity.
  - cbn [mapi_from fold_left scan].
    rewrite streakStep_snoc by exact Hcur.
    cbn [pairAt isConsecutive]. rewrite at_index_middle.
    cbn [isConsecutiveWith]. rewrite daysBetween_minus.
    replace (pre ++ prev :: x :: rest) with ((pre ++ [prev]) ++ x :: rest)
      by (rewrite <- app_assoc; reflexivity).
    replace (Z.of_nat (List.length pre) + 1)
      with (Z.of_nat (List.length (pre ++ [prev])))
      by (rewrite length_app; simpl; lia).
    destruct (prev - x =? 1).
    + rewrite IH by lia.
      pose proof (scan_ge rest x (cur + 1)) as Hge.
      rewrite Z.max_r by lia. reflexivity.
    + rewrite IH by lia. rewrite <- app_assoc. apply Math_max_merge.
Qed.

Lemma findLongestStreak_scan (p : CalendarDay) (rest : list CalendarDay) :
  findLongestStreak (p :: rest) = scan p 1 rest.
Proof.
  unfold findLongestStreak. cbn [List.length Nat.eqb]. cbv zeta.
  rewrite slice_from_1. cbn [tl]. unfold mapi.
  exact (reduce_scan rest [] p 1 [] ltac:(lia)).
Qed.

(** [Math.max] is applied to a non-empty array. *)
Lemma streakStep_nonempty (acc : list Z) (pair : DatePair) :
  acc <> [] -> streakStep acc pair <> [].
Proof.
  intros Hacc. unfold streakStep. destruct (isConsecutive pair).
  - destruct acc as [|a acc]; [congruence|].
    simpl. destruct acc; discriminate.
  - destruct acc; discriminate.
Qed.

Lemma streaks_nonempty (pairs : list DatePair) (acc : list Z) :
  acc <> [] -> reduce streakStep pairs acc <> [].
Proof.
  unfold reduce. revert acc.
  induction pairs as [|pair pairs IH]; intros acc Hacc.
  - exact Hacc.
  - simpl. apply IH, streakStep_nonempty, Hacc.
Qed.

(** *** Runs of consecutive days *)

Lemma isRun_snoc (r : list CalendarDay) (p x : CalendarDay) :
  isRun (r ++ [p]) -> p - x = 1 -> isRun ((r ++ [p]) ++ [x]).
Proof.
  intros Hrun Hpx. induction r as [|a r IH]; simpl in *.
  - tauto.
  - destruct Hrun as [Hhead Hrun]. split; [|apply IH, Hrun].
    destruct r; simpl in *; exact Hhead.
Qed.

Lemma isRun_downFrom (k : nat) (s : CalendarDay) : isRun (downFrom s k).
Proof.
  revert s. induction k as [|k IH]; intros s; [exact I|].
  rewrite downFrom_S. simpl. split; [|apply IH].
  destruct k as [|k]; [exact I|]. rewrite downFrom_S. lia.
Qed.

Lemma scan_run_prefix (r : list CalendarDay) (prev : CalendarDay) (cur : Z)
      (l2 : list CalendarDay) :
  isRun (prev :: r) ->
  cur + Z.of_nat (List.length r) <= scan prev cur (r ++ l2).
Proof.
  revert prev cur. induction r as [|x r IH]; intros prev cur Hrun.
  - simpl. pose proof (scan_ge l2 prev cur). lia.
  - destruct Hrun as [Hpx Hrun]. cbn [app scan].
    rewrite (proj2 (Z.eqb_eq _ _) Hpx).
    specialize (IH x (cur + 1) Hrun). simpl List.length. lia.
Qed.

Lemma scan_run_segment (l1 r l2 : list CalendarDay) (prev : CalendarDay)
      (cur : Z) :
  1 <= cur -> isRun r ->
  Z.of_nat (List.length r) <= scan prev cur (l1 ++ r ++ l2).
Proof.
  revert prev cur. induction l1 as [|y l1 IH]; intros prev cur Hcur Hrun.
  - destruct r as [|x r].
    + simpl. pose proof (scan_ge l2 prev cur). lia.
    + cbn [app scan].
      set (cur' := if prev - x =? 1 then cur + 1 else 1).
      assert (1 <= cur') by (unfold cur'; destruct (prev - x =? 1); lia).
      pose proof (scan_run_prefix r x cur' l2 Hrun). simpl List.length. lia.
  - cbn [app scan].
    set (cur' := if prev - y =? 1 then cur + 1 else 1).
    assert (Hcur' : 1 <= cur') by (unfold cur'; destruct (prev - y =? 1); lia).
    specialize (IH y cur' Hcur' Hrun). lia.
Qed.

Lemma findLongestStreak_upper (days l1 r l2 : list CalendarDay) :
  days = l1 ++ r ++ l2 -> isRun r ->
  Z.of_nat (List.length r) <= findLongestStreak days.
Proof.
  intros Hdays Hrun. destruct days as [|p rest].
  - symmetry in Hdays. apply app_eq_nil in Hdays. destruct Hdays as [_ Hdays].
    apply app_eq_nil in Hdays. destruct Hdays as [-> _]. reflexivity.
  - rewrite findLongestStreak_scan. destruct l1 as [|y l1].
    + destruct r as [|x r].
      * simpl. pose proof (scan_ge rest p 1). lia.
      * injection Hdays as <- ->.
        pose proof (scan_run_prefix r p 1 l2 Hrun). simpl List.length. lia.
    + injection Hdays as <- ->. apply scan_run_segment; [lia | exact Hrun].
Qed.

Lemma scan_attained (rest pre run : list CalendarDay) (prev : CalendarDay)
      (cur : Z) :
  isRun (run ++ [prev]) ->
  Z.of_nat (List.length (run ++ [prev])) = cur ->
  exists l1 r l2,
    (pre ++ run ++ [prev]) ++ rest = l1 ++ r ++ l2 /\
    isRun r /\ Z.of_nat (List.length r) = scan prev cur rest.
Proof.
  revert pre run prev cur.
  induction rest as [|x rest IH]; intros pre run prev cur Hrun Hlen.
  - exists pre, (run ++ [prev]), []. simpl.
    rewrite !app_nil_r. auto.
  - cbn [scan].
    set (cur' := if prev - x =? 1 then cur + 1 else 1).
    destruct (Z.max_spec cur (scan x cur' rest)) as [[Hlt ->] | [Hge ->]].
    + subst cur'. destruct (prev - x =? 1) eqn:Hpx.
      * apply Z.eqb_eq in Hpx.
        destruct (IH pre (run ++ [prev]) x (cur + 1))
          as (l1 & r & l2 & Heq & Hr & Hl).
        -- apply isRun_snoc; assumption.
        -- rewrite length_app. simpl List.length. lia.
        -- exists l1, r, l2. split; [|auto].
           rewrite <- Heq. rewrite <- !app_assoc. reflexivity.
      * destruct (IH (pre ++ run ++ [prev]) [] x 1)
          as (l1 & r & l2 & Heq & Hr & Hl).
        -- simpl. auto.
        -- reflexivity.
        -- exists l1, r, l2. split; [|auto].
           rewrite <- Heq. rewrite <- !app_assoc. reflexivity.
    + exists pre, (run ++ [prev]), (x :: rest).
      rewrite <- !app_assoc. auto.
Qed.

Lemma findLongestStreak_attained (days : list CalendarDay) :
  exists l1 r l2,
    days = l1 ++ r ++ l2 /\ isRun r /\
    Z.of_nat (List.length r) = findLongestStreak days.
Proof.
  destruct days as [|p rest].
  - exists [], [], []. simpl. auto.
  - rewrite findLongestStreak_scan.
    destruct (scan_attained rest [] [] p 1) as (l1 & r & l2 & Heq & Hr & Hl);
      [simpl; auto | reflexivity |].
    exists l1, r, l2. auto.
Qed.

Lemma findLongestStreak_pos (p : CalendarDay) (rest : list CalendarDay) :
  1 <= findLongestStreak (p :: rest).
Proof. rewrite findLongestStreak_scan. apply scan_ge. Qed.

(** *** Consecutive days inside a strictly descending sequence *)

Lemma descending_split (l1 : list CalendarDay) (s : CalendarDay)
      (l2 : list CalendarDay) :
  StronglySorted Z.gt (l1 ++ s :: l2) ->
  Forall (fun z => z > s) l1 /\ StronglySorted Z.gt (s :: l2).
Proof.
  induction l1 as [|y l1 IH]; simpl; intros Hs.
  - split; [constructor | exact Hs].
  - inversion Hs as [|? ? Hs' Hall]; subst.
    destruct (IH Hs') as [Hl1 Hl2]. split; [|exact Hl2].
    constructor; [|exact Hl1].
    rewrite Forall_forall in Hall. apply Hall, in_elt.
Qed.

Lemma descending_range_after (k : nat) (s : CalendarDay)
      (l : list CalendarDay) :
  StronglySorted Z.gt (s :: l) ->
  (forall i, 1 <= i <= Z.of_nat k -> In (s - i) l) ->
  exists l2, l = downFrom (s - 1) k ++ l2.
Proof.
  revert s l. induction k as [|k IH]; intros s l Hs Hin.
  - exists l. reflexivity.
  - inversion Hs as [|? ? Hs' Hall]; subst.
    destruct l as [|y l]; [destruct (Hin 1 ltac:(lia))|].
    inversion Hs' as [|? ? Hs'' Hall']; subst.
    rewrite Forall_forall in Hall, Hall'.
    assert (Hy : y = s - 1).
    { pose proof (Hall y (or_introl eq_refl)) as Hsy.
      destruct (Hin 1 ltac:(lia)) as [Heq | Hl]; [lia|].
      specialize (Hall' _ Hl). lia. }
    subst y.
    destruct (IH (s - 1) l Hs') as [l2 Hl2].
    + intros i Hi. destruct (Hin (i + 1) ltac:(lia)) as [Heq | Hl]; [lia|].
      replace (s - 1 - i) with (s - (i + 1)) by lia. exact Hl.
    + exists l2. rewrite downFrom_S. simpl. f_equal. exact Hl2.
Qed.

Lemma descending_range_segment (k : nat) (s : CalendarDay)
      (l : list CalendarDay) :
  StronglySorted Z.gt l ->
  (forall i, 0 <= i < Z.of_nat k -> In (s - i) l) ->
  exists l1 l2, l = l1 ++ downFrom s k ++ l2.
Proof.
  intros Hs Hin. destruct k as [|k].
  - exists [], l. reflexivity.
  - pose proof (Hin 0 ltac:(lia)) as Hs0. rewrite Z.sub_0_r in Hs0.
    apply in_split in Hs0. destruct Hs0 as (l1 & l' & ->).
    destruct (descending_split l1 s l' Hs) as [Hl1 Hs'].
    rewrite Forall_forall in Hl1.
    destruct (descending_range_after k s l' Hs') as [l2 ->].
    + intros i Hi. specialize (Hin i ltac:(lia)).
      apply in_app_or in Hin. destruct Hin as [Hin | [Heq | Hin]].
      * specialize (Hl1 _ Hin). lia.
      * lia.
      * exact Hin.
    + exists l1, l2. rewrite downFrom_S. reflexivity.
Qed.

Lemma current_le_longest (now : Z) (days : list CalendarDay) :
  StronglySorted Z.gt days ->
  Z.of_nat (streakLen now days) <= findLongestStreak days.
Proof.
  intros Hs.
  destruct (descending_range_segment (streakLen now days) (anchor now days)
              days Hs (streak_days_In now days)) as (l1 & l2 & Hseg).
  pose proof (findLongestStreak_upper days l1 _ l2 Hseg
                (isRun_downFrom _ _)) as Hup.
  rewrite downFrom_length in Hup. exact Hup.
Qed.

(** *** The most recent day and the activity check *)

Lemma fold_max_spec (ds : list Z) (d : Z) :
  In (fold_left Z.max ds d) (d :: ds) /\
  forall x, In x (d :: ds) -> x <= fold_left Z.max ds d.
Proof.
  revert d. induction ds as [|y ds IH]; intros d; simpl.
  - split; [auto | intros x [<- | []]; lia].
  - destruct (IH (Z.max d y)) as [Hin Hmax]. split.
    + destruct Hin as [Heq | Hin]; [|auto].
      rewrite <- Heq. destruct (Z.max_spec d y) as [[_ ->] | [_ ->]]; auto.
    + intros x Hx.
      assert (Hd : Z.max d y <= fold_left Z.max ds (Z.max d y))
        by (apply Hmax; left; reflexivity).
      destruct Hx as [<- | [<- | Hx]]; [lia | lia |].
      apply Hmax. right. exact Hx.
Qed.

Lemma mostRecentDay_spec (entries : list JournalEntry) (m : CalendarDay) :
  mostRecentDay entries = Some m <->
  In m (entryDays entries) /\ forall d, In d (entryDays entries) -> d <= m.
Proof.
  unfold mostRecentDay. destruct (entryDays entries) as [|d ds].
  - split; [discriminate | intros [[] _]].
  - destruct (fold_max_spec ds d) as [Hin Hmax]. split.
    + intros [= <-]. split; assumption.
    + intros [Hm Hall]. f_equal.
      specialize (Hmax m Hm). specialize (Hall _ Hin). lia.
Qed.

Lemma mostRecentDay_some (e : JournalEntry) (entries : list JournalEntry) :
  exists m, mostRecentDay (e :: entries) = Some m.
Proof. unfold mostRecentDay. simpl. eauto. Qed.

Lemma noEntries_cons (e : JournalEntry) (es : list JournalEntry) :
  noEntries (Some (e :: es)) = false.
Proof. reflexivity. Qed.

Lemma noEntries_true (entries : option (list JournalEntry)) :
  noEntries entries = true <-> entries = None \/ entries = Some [].
Proof.
  destruct entries as [[|e es]|]; simpl; split; auto;
    try discriminate; intros [H | H]; discriminate.
Qed.

(** [isStreakActive] looks for an entry dated today or yesterday. *)
Lemma isStreakActive_In (tza now : Z) (entries : option (list JournalEntry)) :
  isStreakActive (fixedOffset tza) now entries = true <->
  In (toDateString now) (entryDays (theEntries entries)) \/
  In (toDateString now - 1) (entryDays (theEntries entries)).
Proof.
  unfold isStreakActive. destruct (noEntries entries) eqn:Hno.
  - apply noEntries_true in Hno. destruct Hno as [-> | ->]; simpl;
      split; [discriminate | tauto | discriminate | tauto].
  - cbv zeta. rewrite addDays_plus, orb_true_iff, !includes_In.
    reflexivity.
Qed.

(** The head of the unique, newest-first days is the most recent day. *)
Lemma getUniqueDates_head (entries : list JournalEntry) :
  at_index (getUniqueDates entries) 0 = mostRecentDay entries.
Proof.
  pose proof (getUniqueDates_descending entries) as Hs.
  pose proof (getUniqueDates_In entries) as Hin.
  unfold at_index. simpl.
  destruct (getUniqueDates entries) as [|h days] eqn:Hdays.
  - apply getUniqueDates_nil in Hdays. subst. reflexivity.
  - simpl. symmetry. apply mostRecentDay_spec.
    inversion Hs as [|? ? _ Hall]; subst. rewrite Forall_forall in Hall.
    split.
    + apply Hin. left. reflexivity.
    + intros d Hd. apply Hin in Hd. destruct Hd as [<- | Hd]; [lia|].
      specialize (Hall _ Hd). lia.
Qed.

(** *** [calculateStreaks] on a non-empty collection *)

Lemma lastEntryDate_cons (zone : Z -> bool -> Z) (now : Z) (e : JournalEntry)
      (es : list JournalEntry) :
  lastEntryDate (calculateStreaks zone now (Some (e :: es)))
  = mostRecentDay (e :: es).
Proof.
  unfold calculateStreaks. rewrite noEntries_cons. cbv zeta.
  cbn [lastEntryDate theEntries]. apply getUniqueDates_head.
Qed.

Lemma calculateStreaks_cons (tza now : Z) (e : JournalEntry)
      (es : list JournalEntry) :
  let days := getUniqueDates (e :: es) in
  calculateStreaks (fixedOffset tza) now (Some (e :: es)) =
  {| currentStreak := Z.of_nat (streakLen now days);
     longestStreak := findLongestStreak days;
     lastEntryDate := mostRecentDay (e :: es);
     streakDates := upFrom (anchor now days - Z.of_nat (streakLen now days) + 1)
                           (streakLen now days) |}.
Proof.
  intros days. unfold calculateStreaks. rewrite noEntries_cons. cbv zeta.
  cbn [theEntries]. rewrite calculateCurrentStreak_shape.
  unfold days. rewrite getUniqueDates_head. reflexivity.
Qed.

(** *** The milestone table *)

Lemma find_first {A : Type} (p : A -> bool) (l : list A) (m : A) :
  find p l = Some m ->
  exists pre post,
    l = pre ++ m :: post /\ p m = true /\ Forall (fun x => p x = false) pre.
Proof.
  induction l as [|x l IH]; simpl; [discriminate|].
  destruct (p x) eqn:Hpx.
  - intros [= <-]. exists [], l. auto.
  - intros Hfind. destruct (IH Hfind) as (pre & post & -> & Hm & Hpre).
    exists (x :: pre), post. auto.
Qed.

Lemma Math_ceil_div_100 (n : Z) :
  n <= Math_ceil_div n 100 * 100 < n + 100 /\
  (Math_ceil_div n 100 * 100) mod 100 = 0.
Proof.
  unfold Math_ceil_div.
  pose proof (Z.div_mod (- n) 100 ltac:(lia)) as Hdm.
  pose proof (Z.mod_pos_bound (- n) 100 ltac:(lia)) as Hmod.
  split; [lia | apply Z.mod_mul; lia].
Qed.

Lemma milestones_none (n : Z) :
  find (fun milestone => n <? milestone) milestones = None <-> 1000 <= n.
Proof.
  split.
  - intros Hnone.
    pose proof (find_none _ _ Hnone 1000) as H1000.
    simpl in H1000. specialize (H1000 ltac:(tauto)).
    apply Z.ltb_ge in H1000. exact H1000.
  - intros Hn. unfold milestones. simpl.
    repeat lazymatch goal with
           | |- context [n <? ?m] =>
               let H := fresh in
               destruct (Z.ltb_spec n m) as [H | H]; [lia|]
           end.
    reflexivity.
Qed.

End StreaksFacts.

(** ** Properties stated by the specification

    The zone is a parameter of the engine.  A property that holds whatever
    the zone is stated for every [zone]; a property that the code has only
    while the local offset does not change is stated for the zones
    [fixedOffset tza], for every offset [tza], next to an input in
    [newYork2025] at which the code does otherwise. *)

Import JSDate JSArray Streaks StreaksSpec.
Import JSDateFacts JSArrayFacts StreaksFacts Samples.

(** *** The engine in an arbitrary zone *)

Lemma setDate_getDate_zone (zone : Z -> bool -> Z) (t n : Z) :
  setDate zone t (getDate zone t + n)
  = t + n * msPerDay
    + (zone t true - zone (t + zone t true + n * msPerDay) false).
Proof.
  unfold setDate, getDate. cbv zeta. rewrite MakeDay_DateFromTime.
  unfold UTC, MakeDate, LocalTime, TimeWithinDay, Day.
  set (lt := t + zone t true).
  assert (Hmoved : (lt / msPerDay + n) * msPerDay + lt mod msPerDay
                   = lt + n * msPerDay).
  { pose proof (Z.div_mod lt msPerDay ltac:(discriminate)). lia. }
  rewrite Hmoved. unfold lt. lia.
Qed.

(** Adding no days gives the same day when the zone reads the local time
    of its UTC midnight back as that instant. *)
Lemma addDays_0 (zone : Z -> bool -> Z) (d : Z) :
  UTC zone (LocalTime zone (parseDay d)) = parseDay d -> addDays zone d 0 = d.
Proof.
  intros Hback. unfold addDays. cbv zeta. rewrite setDate_getDate_zone.
  unfold UTC, LocalTime in Hback.
  rewrite Z.mul_0_l, !Z.add_0_r.
  assert (Hoff : zone (parseDay d) true
                 = zone (parseDay d + zone (parseDay d) true) false) by lia.
  rewrite <- Hoff, Z.sub_diag, Z.add_0_r.
  unfold toDateString, isoDatePart. apply Day_parseDay.
Qed.

(** In every zone the current streak is the number of leading candidate
    days that have an entry. *)
Lemma calculateCurrentStreak_leading (zone : Z -> bool -> Z) (now : Z)
      (days : list Z) :
  let candidates :=
    from_length (List.length days)
      (fun i => addDays zone (startDate zone now days) (- i)) in
  streak (calculateCurrentStreak zone now days)
  = Z.of_nat (List.length (leading (includes days) candidates)) /\
  dates (calculateCurrentStreak zone now days)
  = rev (leading (includes days) candidates).
Proof.
  intros candidates. unfold calculateCurrentStreak. cbv beta zeta.
  fold (startDate zone now days). fold candidates.
  match goal with
  | |- context [filter ?f _] => change f with (includes days)
  end.
  destruct (streak_cut (includes days) candidates) as [Hlen Hcut].
  cbv zeta in Hlen, Hcut. cbn [streak dates].
  rewrite Hcut, Hlen. split; reflexivity.
Qed.

Lemma isRun_downFrom_eq (r : list Z) (a : Z) :
  isRun (a :: r) -> a :: r = downFrom a (S (List.length r)).
Proof.
  revert a. induction r as [|b r IH]; intros a Hrun.
  - unfold downFrom. cbn. rewrite Z.sub_0_r. reflexivity.
  - destruct Hrun as [Hab Hrun]. rewrite downFrom_S. f_equal.
    replace (a - 1) with b by lia. apply IH, Hrun.
Qed.

Lemma downFrom_NoDup (k : nat) (s : Z) : NoDup (downFrom s k).
Proof.
  revert s. induction k as [|k IH]; intros s.
  - constructor.
  - rewrite downFrom_S. constructor; [|apply IH].
    rewrite downFrom_In. lia.
Qed.

Lemma getUniqueDates_NoDup (entries : list JournalEntry) :
  NoDup (getUniqueDates entries).
Proof. unfold getUniqueDates. apply sort_NoDup, Set_spread_NoDup. Qed.

Lemma toDateString_inUTCDay (t d : Z) : toDateString t = d <-> inUTCDay d t.
Proof.
  unfold toDateString, isoDatePart, inUTCDay. split.
  - intros <-. apply Day_interval.
  - apply Day_unique.
Qed.

Lemma entryDays_inUTCDay (entries : list JournalEntry) (d : Z) :
  In d (entryDays entries) <->
  exists e, In e entries /\ inUTCDay d (createdAt e).
Proof.
  unfold entryDays. rewrite in_map_iff. split.
  - intros (e & Hd & He). exists e. split; [exact He|].
    apply toDateString_inUTCDay, Hd.
  - intros (e & He & Hd). exists e. split; [|exact He].
    apply toDateString_inUTCDay, Hd.
Qed.

Lemma calculateStreaks_some (zone : Z -> bool -> Z) (now : Z)
      (e : JournalEntry) (es : list JournalEntry) :
  calculateStreaks zone now (Some (e :: es))
  = {| currentStreak :=
         streak (calculateCurrentStreak zone now (getUniqueDates (e :: es)));
       longestStreak := findLongestStreak (getUniqueDates (e :: es));
       lastEntryDate := at_index (getUniqueDates (e :: es)) 0;
       streakDates :=
         dates (calculateCurrentStreak zone now (getUniqueDates (e :: es)))
    |}.
Proof. reflexivity. Qed.

Lemma isStreakActive_zone (zone : Z -> bool -> Z) (now : Z)
      (entries : option (list JournalEntry)) :
  isStreakActive zone now entries = true <->
  In (toDateString now) (entryDays (theEntries entries)) \/
  In (addDays zone (toDateString now) (-1)) (entryDays (theEntries entries)).
Proof.
  unfold isStreakActive. destruct entries as [[|e es]|].
  - cbn. split; [discriminate | tauto].
  - rewrite noEntries_cons. cbv zeta.
    fold (entryDays (theEntries (Some (e :: es)))).
    rewrite orb_true_iff, !includes_In. reflexivity.
  - cbn. split; [discriminate | tauto].
Qed.

Lemma findLongestStreak_nonneg (days : list Z) : 0 <= findLongestStreak days.
Proof.
  destruct days as [|p rest]; [cbn; lia|].
  pose proof (findLongestStreak_pos p rest). lia.
Qed.

(** The walk finds at least one day exactly when its start date has an
    entry. *)
Lemma calculateCurrentStreak_pos_zone (zone : Z -> bool -> Z) (now : Z)
      (days : list Z) :
  midnightRoundTrip zone ->
  (0 < streak (calculateCurrentStreak zone now days) <->
   In (startDate zone now days) days).
Proof.
  intros Hzone.
  destruct (calculateCurrentStreak_leading zone now days) as [Hstreak _].
  cbv zeta in Hstreak. rewrite Hstreak. clear Hstreak.
  set (start := startDate zone now days). unfold from_length.
  destruct (List.length days) as [|n] eqn:Hlen.
  - apply length_zero_iff_nil in Hlen. rewrite Hlen. cbn. split; [lia | tauto].
  - cbn [seq map leading]. change (- Z.of_nat 0) with 0.
    rewrite (addDays_0 zone start (Hzone start)).
    destruct (includes days start) eqn:Hin.
    + apply includes_In in Hin. cbn [List.length]. split; [tauto | lia].
    + apply includes_false in Hin. cbn [List.length]. split; [lia | tauto].
Qed.

Lemma isStreakActive_iff_pos_zone (zone : Z -> bool -> Z) (now : Z)
      (entries : option (list JournalEntry)) :
  midnightRoundTrip zone ->
  (isStreakActive zone now entries = true <->
   0 < currentStreak (calculateStreaks zone now entries)).
Proof.
  intros Hzone. rewrite isStreakActive_zone.
  destruct entries as [[|e es]|].
  - cbn. split; [tauto | lia].
  - rewrite calculateStreaks_some. cbn [currentStreak theEntries].
    rewrite (calculateCurrentStreak_pos_zone zone now _ Hzone).
    rewrite <- !getUniqueDates_In. unfold startDate.
    destruct (includes (getUniqueDates (e :: es)) (toDateString now))
      eqn:Htoday.
    + apply includes_In in Htoday. tauto.
    + apply includes_false in Htoday. tauto.
  - cbn. split; [tauto | lia].
Qed.

Lemma newYork2025_midnightRoundTrip : midnightRoundTrip newYork2025.
Proof.
  intros d. unfold UTC, LocalTime, newYork2025, parseDay, MakeDate.
  cbv zeta.
  change (utc 2025 11 2 6 0) with 1762063200000.
  change (utc 2025 11 2 2 0) with 1762048800000.
  change msPerDay with 86400000.
  destruct (Z.ltb_spec (d * 86400000 + 0) 1762063200000) as [Hedt | Hest].
  - destruct (Z.ltb_spec (d * 86400000 + 0 + - 4 * 60 * 60 * 1000)
                         1762048800000); lia.
  - destruct (Z.ltb_spec (d * 86400000 + 0 + - 5 * 60 * 60 * 1000)
                         1762048800000); lia.
Qed.

(** *** Milestones *)

Lemma milestone_below_1000 (n : Z) :
  n < 1000 ->
  firstAbove milestones n (milestone (getDaysUntilNextMilestone n)) /\
  daysUntil (getDaysUntilNextMilestone n)
  = milestone (getDaysUntilNextMilestone n) - n.
Proof.
  intros Hn. unfold getDaysUntilNextMilestone.
  destruct (find (fun m => n <? m) milestones) as [m|] eqn:Hfind.
  - cbn [milestone daysUntil]. split; [|reflexivity].
    destruct (find_first _ _ _ Hfind) as (pre & post & Heq & Hm & Hpre).
    exists pre, post. split; [exact Heq|]. split.
    + apply Z.ltb_lt, Hm.
    + eapply Forall_impl; [|exact Hpre]. intros x Hx. apply Z.ltb_ge, Hx.
  - apply milestones_none in Hfind. lia.
Qed.

Lemma milestone_from_1000 (n : Z) :
  1000 <= n ->
  let m := milestone (getDaysUntilNextMilestone n) in
  m = Math_ceil_div n 100 * 100 /\
  daysUntil (getDaysUntilNextMilestone n) = m - n /\
  m mod 100 = 0 /\ n <= m < n + 100 /\
  (n mod 100 = 0 -> m = n) /\ (n mod 100 <> 0 -> n < m).
Proof.
  intros Hn. unfold getDaysUntilNextMilestone.
  rewrite (proj2 (milestones_none n) Hn). cbn [milestone daysUntil]. cbv zeta.
  destruct (Math_ceil_div_100 n) as [Hbound Hmod].
  repeat split; try lia.
  - intros Hn0.
    pose proof (Z.div_mod n 100 ltac:(lia)) as Hdm.
    pose proof (Z.div_mod (Math_ceil_div n 100 * 100) 100 ltac:(lia)) as Hdm'.
    lia.
  - intros Hn0.
    destruct (Z.eq_dec (Math_ceil_div n 100 * 100) n) as [Heq|]; [|lia].
    rewrite Heq in Hmod. contradiction.
Qed.

(** C1. At a streak of exactly 1000 days the function returns the
    milestone 1000 itself with 0 days to go: the fallback
    [Math.ceil(currentStreak / 100) * 100] does not move past a streak that
    is already a multiple of 100, so the returned milestone is not strictly
    greater than the streak and [daysUntil] is not at least 1. *)
Theorem getDaysUntilNextMilestone_at_1000 :
  getDaysUntilNextMilestone 1000 = {| daysUntil := 0; milestone := 1000 |} /\
  ~ (1000 < milestone (getDaysUntilNextMilestone 1000)) /\
  ~ (1 <= daysUntil (getDaysUntilNextMilestone 1000)).
Proof.
  assert (Hval : getDaysUntilNextMilestone 1000
                 = {| daysUntil := 0; milestone := 1000 |}) by reflexivity.
  rewrite Hval. cbn [milestone daysUntil]. repeat split; lia.
Qed.

(** *** Activity check *)

(** C2, as stated, fails: with the clock at 2025-09-21T10:30Z and entries
    dated 2025-09-22 and 2025-09-21, the most recent entry's day is
    2025-09-22, which is neither today nor yesterday, yet [isStreakActive]
    returns true because an entry dated today exists. *)
Lemma isStreakActive_future_entry :
  isStreakActive (fixedOffset 0) (utc 2025 9 21 10 30) (Some futureEntries)
  = true /\
  mostRecentDay futureEntries = Some (toDateString (utc 2025 9 22 0 0)) /\
  ~ (mostRecentDay futureEntries = Some (toDateString (utc 2025 9 21 10 30)) \/
     mostRecentDay futureEntries
     = Some (addDays (fixedOffset 0)
                     (toDateString (utc 2025 9 21 10 30)) (-1))).
Proof.
  split; [reflexivity|]. split; [reflexivity|].
  vm_compute. intros [H | H]; discriminate H.
Qed.

(** C2, amended. In a zone whose offset does not change, where [addDays]
    of today and -1 is the calendar day before today: for a non-empty
    collection in which no entry is dated after today, [isStreakActive]
    returns true iff the day of the most recent entry is today or the day
    before today. *)
Theorem isStreakActive_most_recent (tza now : Z) (entries : list JournalEntry) :
  entries <> [] ->
  (forall e, In e entries -> toDateString (createdAt e) <= toDateString now) ->
  addDays (fixedOffset tza) (toDateString now) (-1) = toDateString now - 1 /\
  (isStreakActive (fixedOffset tza) now (Some entries) = true <->
   mostRecentDay entries = Some (toDateString now) \/
   mostRecentDay entries = Some (toDateString now - 1)).
Proof.
  intros Hne Hpast. split; [rewrite addDays_plus; lia|].
  rewrite isStreakActive_In. cbn [theEntries].
  destruct entries as [|e0 es]; [congruence|].
  destruct (mostRecentDay_some e0 es) as [m Hm]. rewrite Hm.
  apply mostRecentDay_spec in Hm. destruct Hm as [Hin Hmax].
  assert (Hle : m <= toDateString now).
  { unfold entryDays in Hin. apply in_map_iff in Hin.
    destruct Hin as (e & <- & He). apply Hpast, He. }
  split.
  - intros [Ht | Hy].
    + left. f_equal. specialize (Hmax _ Ht). lia.
    + specialize (Hmax _ Hy).
      destruct (Z.eq_dec m (toDateString now)) as [-> | Hneq];
        [left; reflexivity|].
      right. f_equal. lia.
  - intros [[= ->] | [= ->]]; [left | right]; exact Hin.
Qed.

Lemma isStreakActive_most_recent_witness :
  isStreakActive utcMinus5 (utc 2025 9 21 10 30)
    (Some [entryAt 2025 9 20 23 59; entryAt 2025 9 18 8 0]) = true <->
  mostRecentDay [entryAt 2025 9 20 23 59; entryAt 2025 9 18 8 0]
  = Some (toDateString (utc 2025 9 21 10 30)) \/
  mostRecentDay [entryAt 2025 9 20 23 59; entryAt 2025 9 18 8 0]
  = Some (toDateString (utc 2025 9 21 10 30) - 1).
Proof.
  refine (proj2 (isStreakActive_most_recent
                   (- 5 * 60 * 60 * 1000) (utc 2025 9 21 10 30)
                   [entryAt 2025 9 20 23 59; entryAt 2025 9 18 8 0] _ _)).
  - discriminate.
  - intros e [<- | [<- | []]]; vm_compute; discriminate.
Defined.

(** C10. A null, undefined or empty collection is not active. *)
Theorem isStreakActive_no_entries (zone : Z -> bool -> Z) (now : Z) :
  isStreakActive zone now None = false /\
  isStreakActive zone now (Some []) = false.
Proof. split; reflexivity. Qed.

(** *** Streak statistics *)

(** C3. In New York on 2025-11-03, the day after the end of daylight
    saving time, with entries on 2025-11-03, 2025-11-01 and 2025-10-31,
    [calculateStreaks] returns a current streak of 3 and a longest streak
    of 2: [addDays] steps from 2025-11-03 back to 2025-11-01, so the walk
    of the current streak passes over the day without an entry, which the
    scan of the longest streak, made with [daysBetween], counts as a gap.
    In a zone whose offset does not change, the current streak is at most
    the longest streak for every collection (null, empty or not) and every
    clock value. *)
Theorem currentStreak_exceeds_longestStreak :
  let r :=
    calculateStreaks newYork2025 (utc 2025 11 3 15 0)
      (Some [entryAt 2025 11 3 14 0; entryAt 2025 11 1 14 0;
             entryAt 2025 10 31 14 0]) in
  currentStreak r = 3 /\ longestStreak r = 2 /\
  ~ currentStreak r <= longestStreak r /\
  (forall tza now entries,
      currentStreak (calculateStreaks (fixedOffset tza) now entries)
      <= longestStreak (calculateStreaks (fixedOffset tza) now entries)).
Proof.
  cbv zeta.
  assert (Hval : calculateStreaks newYork2025 (utc 2025 11 3 15 0)
                   (Some [entryAt 2025 11 3 14 0; entryAt 2025 11 1 14 0;
                          entryAt 2025 10 31 14 0])
                 = {| currentStreak := 3;
                      longestStreak := 2;
                      lastEntryDate := Some 20395;
                      streakDates := [20392; 20393; 20395] |})
    by (vm_compute; reflexivity).
  rewrite Hval. cbn [currentStreak longestStreak].
  split; [reflexivity|]. split; [reflexivity|]. split; [lia|].
  intros tza now entries.
  destruct entries as [[|e es]|]; [reflexivity | | reflexivity].
  rewrite calculateStreaks_cons. cbn [currentStreak longestStreak].
  apply current_le_longest, getUniqueDates_descending.
Qed.

Lemma contiguousAscending_upFrom (n : nat) (first : Z) :
  contiguousAscending (upFrom first n).
Proof.
  revert first. induction n as [|n IH]; intros first; [exact I|].
  assert (Hcons : forall k a, upFrom a (S k) = a :: upFrom (a + 1) k).
  { intros k a. unfold upFrom. cbn [seq map].
    rewrite <- seq_shift, map_map. change (Z.of_nat 0) with 0.
    rewrite Z.add_0_r. apply (f_equal (cons a)), map_ext. intros i. lia. }
  rewrite Hcons. cbn [contiguousAscending]. split; [|apply IH].
  destruct n as [|n]; [exact I|]. rewrite Hcons. reflexivity.
Qed.

Lemma anchor_entryDays (now : Z) (entries : list JournalEntry) :
  anchor now (getUniqueDates entries) = anchor now (entryDays entries).
Proof.
  unfold anchor.
  replace (includes (getUniqueDates entries) (toDateString now))
    with (includes (entryDays entries) (toDateString now)); [reflexivity|].
  apply eq_true_iff_eq. rewrite !includes_In. symmetry.
  apply getUniqueDates_In.
Qed.

(** Among days without duplicates, the day before the oldest day of the
    walk has no entry, also when the walk used up all its candidates. *)
Lemma streak_stop_NoDup (now : Z) (days : list Z) :
  NoDup days ->
  ~ In (anchor now days - Z.of_nat (streakLen now days)) days.
Proof.
  intros Hnodup.
  pose proof (streakLen_le now days) as Hle.
  destruct (Nat.eq_dec (streakLen now days) (List.length days))
    as [Hall | Hnot]; [|apply streak_stop; lia].
  intros Hin.
  assert (Hsub : incl (downFrom (anchor now days) (streakLen now days)) days).
  { intros d Hd. apply downFrom_In in Hd.
    replace d with (anchor now days - (anchor now days - d)) by lia.
    apply streak_days_In. lia. }
  assert (Hsup : incl days (downFrom (anchor now days) (streakLen now days))).
  { apply NoDup_length_incl; [apply downFrom_NoDup | | exact Hsub].
    rewrite downFrom_length. lia. }
  apply Hsup, downFrom_In in Hin. lia.
Qed.

(** C4. In New York on 2025-11-03, with entries on 2025-11-03, 2025-11-01
    and 2025-10-31, [streakDates] is 2025-10-31, 2025-11-01, 2025-11-03:
    it has [currentStreak] elements and is ascending, but it is not
    contiguous, because the walk steps over 2025-11-02.  In a zone whose
    offset does not change, for every collection and clock value,
    [streakDates] has [currentStreak] elements, each day is the previous
    one plus one, and it is exactly the range of the current streak: the
    [currentStreak] calendar days that end at today, or at the day before
    today when today has no entry; each of them has an entry and the day
    before the first of them has none. *)
Theorem streakDates_skip_a_day :
  let r :=
    calculateStreaks newYork2025 (utc 2025 11 3 15 0)
      (Some [entryAt 2025 11 3 14 0; entryAt 2025 11 1 14 0;
             entryAt 2025 10 31 14 0]) in
  streakDates r
  = [toDateString (utc 2025 10 31 0 0); toDateString (utc 2025 11 1 0 0);
     toDateString (utc 2025 11 3 0 0)] /\
  Z.of_nat (List.length (streakDates r)) = currentStreak r /\
  ~ contiguousAscending (streakDates r) /\
  (forall tza now entries,
      let r := calculateStreaks (fixedOffset tza) now entries in
      let days := entryDays (theEntries entries) in
      let n := currentStreak r in
      Z.of_nat (List.length (streakDates r)) = n /\
      contiguousAscending (streakDates r) /\
      streakDates r = upFrom (anchor now days - n + 1) (Z.to_nat n) /\
      (forall d, In d (streakDates r) -> In d days) /\
      ~ In (anchor now days - n) days).
Proof.
  cbv zeta.
  assert (Hval : calculateStreaks newYork2025 (utc 2025 11 3 15 0)
                   (Some [entryAt 2025 11 3 14 0; entryAt 2025 11 1 14 0;
                          entryAt 2025 10 31 14 0])
                 = {| currentStreak := 3;
                      longestStreak := 2;
                      lastEntryDate := Some 20395;
                      streakDates := [20392; 20393; 20395] |})
    by (vm_compute; reflexivity).
  rewrite Hval. cbn [currentStreak streakDates].
  split; [vm_compute; reflexivity|]. split; [reflexivity|]. split.
  { cbn [contiguousAscending]. lia. }
  intros tza now entries. destruct entries as [[|e es]|].
  - cbn. repeat split; tauto.
  - rewrite calculateStreaks_cons. cbn [currentStreak streakDates theEntries].
    rewrite <- anchor_entryDays.
    set (days := getUniqueDates (e :: es)).
    rewrite Nat2Z.id, upFrom_length.
    split; [reflexivity|]. split; [apply contiguousAscending_upFrom|].
    split; [reflexivity|]. split.
    + intros d Hd. apply getUniqueDates_In. fold days.
      unfold upFrom in Hd. apply in_map_iff in Hd.
      destruct Hd as (i & <- & Hi). apply in_seq in Hi.
      replace (anchor now days - Z.of_nat (streakLen now days) + 1
               + Z.of_nat i)
        with (anchor now days
              - (Z.of_nat (streakLen now days) - 1 - Z.of_nat i)) by lia.
      apply streak_days_In. lia.
    + intros Hin. apply getUniqueDates_In in Hin. fold days in Hin.
      revert Hin. apply streak_stop_NoDup. apply getUniqueDates_NoDup.
  - cbn. repeat split; tauto.
Qed.

Lemma calculateCurrentStreak_anchoredAt (tza now : Z) (days : list Z) :
  anchoredAt days (anchor now days)
             (calculateCurrentStreak (fixedOffset tza) now days).
Proof.
  rewrite calculateCurrentStreak_shape.
  unfold anchoredAt. cbn [streak dates]. split; [|split].
  - intros i Hi. apply streak_days_In, Hi.
  - intros Hlt. apply streak_stop. lia.
  - rewrite Nat2Z.id. reflexivity.
Qed.

(** C5. In New York on 2025-11-03 the day [addDays] returns for today and
    -1 is 2025-11-01, two days before today.  A sequence that contains
    yesterday, 2025-11-02, and not today gives streak 0 with no dates: the
    walk is anchored neither at today nor at yesterday.  A sequence that
    contains neither today nor yesterday, only 2025-11-01 and 2025-10-31,
    gives streak 2.  In a zone whose offset does not change, for every day
    sequence (unique and descending or not) and every clock value, with
    yesterday the calendar day before today: without an entry today or
    yesterday the streak is 0 with no dates, whatever older days there
    are; with an entry today the walk is anchored at today, and otherwise,
    with an entry yesterday, at yesterday. *)
Theorem calculateCurrentStreak_skips_yesterday :
  let now := utc 2025 11 3 15 0 in
  let today := toDateString now in
  today = toDateString (utc 2025 11 3 0 0) /\
  today - 1 = toDateString (utc 2025 11 2 0 0) /\
  addDays newYork2025 today (-1) = toDateString (utc 2025 11 1 0 0) /\
  calculateCurrentStreak newYork2025 now [toDateString (utc 2025 11 2 0 0)]
  = {| streak := 0; dates := [] |} /\
  calculateCurrentStreak newYork2025 now
    [toDateString (utc 2025 11 1 0 0); toDateString (utc 2025 10 31 0 0)]
  = {| streak := 2;
       dates := [toDateString (utc 2025 10 31 0 0);
                 toDateString (utc 2025 11 1 0 0)] |} /\
  (forall tza now days,
      let today := toDateString now in
      let yesterday := today - 1 in
      let cs := calculateCurrentStreak (fixedOffset tza) now days in
      (~ In today days -> ~ In yesterday days ->
       streak cs = 0 /\ dates cs = []) /\
      (In today days -> 1 <= streak cs /\ anchoredAt days today cs) /\
      (~ In today days -> In yesterday days ->
       1 <= streak cs /\ anchoredAt days yesterday cs)).
Proof.
  cbv zeta.
  split; [vm_compute; reflexivity|]. split; [vm_compute; reflexivity|].
  split; [vm_compute; reflexivity|]. split; [vm_compute; reflexivity|].
  split; [vm_compute; reflexivity|].
  intros tza now days.
  pose proof (calculateCurrentStreak_anchoredAt tza now days) as Hwalk.
  assert (Hpos : 1 <= streak (calculateCurrentStreak (fixedOffset tza) now days)
                 <-> In (anchor now days) days).
  { rewrite calculateCurrentStreak_shape. cbn [streak].
    rewrite <- streak_pos_iff. lia. }
  unfold anchor in Hwalk, Hpos.
  destruct (includes days (toDateString now)) eqn:Htoday.
  - apply includes_In in Htoday. split; [tauto|]. split; [|tauto].
    intros _. split; [apply Hpos, Htoday | exact Hwalk].
  - apply includes_false in Htoday. split; [|split; [tauto|]].
    + intros _ Hy.
      assert (Hzero : streak (calculateCurrentStreak (fixedOffset tza) now days)
                      = 0).
      { rewrite calculateCurrentStreak_shape in Hpos |- *. cbn [streak] in *.
        destruct (streakLen now days); [reflexivity|].
        exfalso. apply Hy, Hpos. lia. }
      split; [exact Hzero|].
      destruct Hwalk as (_ & _ & ->). rewrite Hzero. reflexivity.
    + intros _ Hy. split; [apply Hpos, Hy | exact Hwalk].
Qed.

(** C6. On a strictly descending sequence of days, where the test applied
    to an adjacent pair holds iff the later day minus the earlier one is
    exactly 1, [findLongestStreak] is 0 for the empty sequence and at least
    1 otherwise; it is the length of some run of adjacent,
    calendar-consecutive days of the sequence, no run of the sequence is
    longer, and any [k] consecutive calendar days that all occur in the
    sequence, wherever they lie, give a result of at least [k].  The
    function takes the days only: it reads neither the clock nor the
    zone. *)
Theorem findLongestStreak_longest_run (days : list Z) :
  StronglySorted Z.gt days ->
  (forall later earlier,
      daysBetween later earlier = 1 <-> later - earlier = 1) /\
  (days = [] -> findLongestStreak days = 0) /\
  (days <> [] -> 1 <= findLongestStreak days) /\
  (exists l1 r l2,
      days = l1 ++ r ++ l2 /\ isRun r /\
      Z.of_nat (List.length r) = findLongestStreak days) /\
  (forall l1 r l2,
      days = l1 ++ r ++ l2 -> isRun r ->
      Z.of_nat (List.length r) <= findLongestStreak days) /\
  (forall (s : Z) (k : nat),
      (forall i, 0 <= i < Z.of_nat k -> In (s - i) days) ->
      Z.of_nat k <= findLongestStreak days).
Proof.
  intros Hs.
  split; [intros later earlier; rewrite daysBetween_minus; reflexivity|].
  split; [intros ->; reflexivity|]. split.
  { destruct days as [|p rest]; [congruence|].
    intros _. apply findLongestStreak_pos. }
  split; [apply findLongestStreak_attained|]. split.
  - intros l1 r l2. apply findLongestStreak_upper.
  - intros s k Hin.
    destruct (descending_range_segment k s days Hs Hin) as (l1 & l2 & Hseg).
    pose proof (findLongestStreak_upper days l1 _ l2 Hseg (isRun_downFrom k s))
      as Hup.
    rewrite downFrom_length in Hup. exact Hup.
Qed.

Lemma findLongestStreak_longest_run_witness :
  (forall l1 r l2,
      [10; 9; 8; 6; 5; 4; 3; 1] = l1 ++ r ++ l2 -> isRun r ->
      Z.of_nat (List.length r)
      <= findLongestStreak [10; 9; 8; 6; 5; 4; 3; 1]) /\
  findLongestStreak [10; 9; 8; 6; 5; 4; 3; 1] = 4.
Proof.
  split; [|reflexivity].
  apply (findLongestStreak_longest_run [10; 9; 8; 6; 5; 4; 3; 1]).
  repeat (constructor; try reflexivity).
Defined.

(** C7. A null, undefined or empty collection gives the zero result;
    [lastEntryDate] is null exactly for such a collection, and otherwise it
    is the most recent calendar day that has an entry. *)
Theorem calculateStreaks_empty_and_lastEntryDate (zone : Z -> bool -> Z)
        (now : Z) :
  calculateStreaks zone now None = zeroStreaks /\
  calculateStreaks zone now (Some []) = zeroStreaks /\
  (forall entries,
      lastEntryDate (calculateStreaks zone now entries) = None <->
      entries = None \/ entries = Some []) /\
  (forall entries d,
      lastEntryDate (calculateStreaks zone now (Some entries)) = Some d <->
      In d (entryDays entries) /\
      forall d', In d' (entryDays entries) -> d' <= d).
Proof.
  split; [reflexivity|]. split; [reflexivity|]. split.
  - intros [[|e es]|].
    + cbn. tauto.
    + rewrite lastEntryDate_cons.
      destruct (mostRecentDay_some e es) as [m ->].
      split; [discriminate | intros [H | H]; discriminate H].
    + cbn. tauto.
  - intros [|e es] d.
    + cbn. split; [discriminate | tauto].
    + rewrite lastEntryDate_cons. apply mostRecentDay_spec.
Qed.

(** C8. In New York on 2025-11-03 a collection whose only entry is dated
    yesterday, 2025-11-02, is not active and has current streak 0, and a
    collection whose only entry is dated two days ago, 2025-11-01, is
    active and has current streak 1: the two results agree with each
    other, but not with the condition that some entry is dated today or
    yesterday, because the day [addDays] returns for today and -1 is
    2025-11-01.  In every zone that reads its UTC midnights back
    unchanged, New York among them, [isStreakActive] is true exactly when
    the current streak computed by [calculateStreaks] is positive; in a
    zone whose offset does not change both say that some entry is dated
    today or the calendar day before today. *)
Theorem isStreakActive_misses_yesterday :
  let now := utc 2025 11 3 15 0 in
  let today := toDateString now in
  toDateString (createdAt (entryAt 2025 11 2 14 0)) = today - 1 /\
  isStreakActive newYork2025 now (Some [entryAt 2025 11 2 14 0]) = false /\
  currentStreak
    (calculateStreaks newYork2025 now (Some [entryAt 2025 11 2 14 0])) = 0 /\
  toDateString (createdAt (entryAt 2025 11 1 14 0)) = today - 2 /\
  isStreakActive newYork2025 now (Some [entryAt 2025 11 1 14 0]) = true /\
  currentStreak
    (calculateStreaks newYork2025 now (Some [entryAt 2025 11 1 14 0])) = 1 /\
  midnightRoundTrip newYork2025 /\
  (forall zone now entries,
      midnightRoundTrip zone ->
      (isStreakActive zone now entries = true <->
       0 < currentStreak (calculateStreaks zone now entries))) /\
  (forall tza now entries,
      midnightRoundTrip (fixedOffset tza) /\
      (isStreakActive (fixedOffset tza) now entries = true <->
       exists e,
         In e (theEntries entries) /\
         (toDateString (createdAt e) = toDateString now \/
          toDateString (createdAt e) = toDateString now - 1))).
Proof.
  cbv zeta.
  split; [vm_compute; reflexivity|]. split; [vm_compute; reflexivity|].
  split; [vm_compute; reflexivity|]. split; [vm_compute; reflexivity|].
  split; [vm_compute; reflexivity|]. split; [vm_compute; reflexivity|].
  split; [exact newYork2025_midnightRoundTrip|].
  split; [exact isStreakActive_iff_pos_zone|].
  intros tza now entries. split.
  - intros d. unfold UTC, LocalTime, fixedOffset. lia.
  - rewrite isStreakActive_In. unfold entryDays. rewrite !in_map_iff. split.
    + intros [(e & Hd & He) | (e & Hd & He)]; exists e; tauto.
    + intros (e & He & [Hd | Hd]); [left | right]; exists e; tauto.
Qed.

(** *** Day normalization *)

(** C9. Every operation of the engine attributes an entry to the UTC day
    in which its instant lies, whatever the zone.  [toDateString] gives
    that day; the unique days are exactly the UTC days in which an entry
    lies; [lastEntryDate] is the latest of them; the longest streak is the
    largest number of consecutive UTC days that each hold an entry; the
    current streak counts [streakDates], each of which is a UTC day that
    holds an entry; and the activity check asks whether an entry lies in
    the UTC day of the clock or in the day [addDays] gives for the day
    before, which is also what makes the current streak positive, and
    which in a zone whose offset does not change is the UTC day before
    that of the clock.  An entry made where the local offset is behind
    UTC, at a local time of day within the offset of the next local
    midnight, is therefore counted under the day after its local calendar
    day. *)
Theorem engine_counts_UTC_days (zone : Z -> bool -> Z) (now : Z)
        (entries : list JournalEntry) :
  let r := calculateStreaks zone now (Some entries) in
  let entryIn d := exists e, In e entries /\ inUTCDay d (createdAt e) in
  (forall t d, toDateString t = d <-> inUTCDay d t) /\
  (forall d, In d (getUniqueDates entries) <-> entryIn d) /\
  (forall d,
      lastEntryDate r = Some d <->
      entryIn d /\ forall d', entryIn d' -> d' <= d) /\
  (forall s k,
      (forall i, 0 <= i < k -> entryIn (s - i)) -> k <= longestStreak r) /\
  (exists s, forall i, 0 <= i < longestStreak r -> entryIn (s - i)) /\
  Z.of_nat (List.length (streakDates r)) = currentStreak r /\
  (forall d, In d (streakDates r) -> entryIn d) /\
  (isStreakActive zone now (Some entries) = true <->
   entryIn (toDateString now) \/
   entryIn (addDays zone (toDateString now) (-1))) /\
  (midnightRoundTrip zone ->
   (0 < currentStreak r <->
    entryIn (toDateString now) \/
    entryIn (addDays zone (toDateString now) (-1)))) /\
  (forall tza,
      isStreakActive (fixedOffset tza) now (Some entries) = true <->
      entryIn (toDateString now) \/ entryIn (toDateString now - 1)) /\
  (forall e,
      In e entries ->
      - msPerDay <= zone (createdAt e) true < 0 ->
      msPerDay + zone (createdAt e) true
      <= TimeWithinDay (LocalTime zone (createdAt e)) ->
      let following := localCalendarDay zone (createdAt e) + 1 in
      toDateString (createdAt e) = following /\
      In following (getUniqueDates entries) /\
      exists d, lastEntryDate r = Some d /\ following <= d).
Proof.
  cbv zeta.
  assert (Hdays : forall d,
             In d (getUniqueDates entries) <->
             exists e, In e entries /\ inUTCDay d (createdAt e)).
  { intros d. rewrite getUniqueDates_In. apply entryDays_inUTCDay. }
  assert (Hlast : forall d,
             lastEntryDate (calculateStreaks zone now (Some entries)) = Some d
             <-> In d (getUniqueDates entries) /\
                 forall d', In d' (getUniqueDates entries) -> d' <= d).
  { intros d. destruct entries as [|e es].
    - cbn. split; [discriminate | tauto].
    - rewrite lastEntryDate_cons, mostRecentDay_spec.
      split; intros [Hin Hmax]; (split; [apply getUniqueDates_In, Hin|]);
        intros d' Hd'; apply Hmax, getUniqueDates_In, Hd'. }
  assert (Hlongest : longestStreak (calculateStreaks zone now (Some entries))
                     = findLongestStreak (getUniqueDates entries)).
  { destruct entries as [|e es]; reflexivity. }
  assert (Hcurrent :
            currentStreak (calculateStreaks zone now (Some entries))
            = Z.of_nat (List.length
                          (streakDates
                             (calculateStreaks zone now (Some entries)))) /\
            forall d,
              In d (streakDates (calculateStreaks zone now (Some entries))) ->
              In d (getUniqueDates entries)).
  { destruct entries as [|e es]; [cbn; tauto|].
    rewrite calculateStreaks_some. cbn [currentStreak streakDates].
    destruct (calculateCurrentStreak_leading zone now
                (getUniqueDates (e :: es))) as [Hstreak Hdates].
    cbv zeta in Hstreak, Hdates. rewrite Hstreak, Hdates, length_rev.
    split; [reflexivity|]. intros d Hd. apply in_rev in Hd.
    pose proof (leading_Forall (includes (getUniqueDates (e :: es)))
                  (from_length (List.length (getUniqueDates (e :: es)))
                     (fun i =>
                        addDays zone
                          (startDate zone now (getUniqueDates (e :: es)))
                          (- i)))) as Hall.
    rewrite Forall_forall in Hall. apply includes_In, Hall, Hd. }
  split; [exact toDateString_inUTCDay|]. split; [exact Hdays|]. split.
  { intros d. rewrite Hlast, Hdays. split; intros [Hin Hmax]; split;
      try exact Hin; intros d' Hd'; apply Hmax, Hdays, Hd'. }
  rewrite Hlongest. split.
  { intros s k Hrun.
    pose proof (findLongestStreak_nonneg (getUniqueDates entries)) as Hnn.
    destruct (Z.le_gt_cases k 0) as [Hk | Hk]; [lia|].
    destruct (descending_range_segment (Z.to_nat k) s (getUniqueDates entries)
                (getUniqueDates_descending entries)) as (l1 & l2 & Hseg).
    { intros i Hi. apply Hdays, Hrun. lia. }
    pose proof (findLongestStreak_upper _ l1 _ l2 Hseg
                  (isRun_downFrom (Z.to_nat k) s)) as Hup.
    rewrite downFrom_length in Hup. lia. }
  split.
  { destruct (findLongestStreak_attained (getUniqueDates entries))
      as (l1 & run & l2 & Hseg & Hrun & Hlen).
    destruct run as [|a run'].
    - exists 0. intros i Hi. cbn in Hlen. lia.
    - exists a. intros i Hi. apply Hdays. rewrite Hseg.
      apply in_or_app. right. apply in_or_app. left.
      rewrite (isRun_downFrom_eq run' a Hrun). apply downFrom_In.
      cbn [List.length] in Hlen. lia. }
  split; [symmetry; apply Hcurrent|].
  split; [intros d Hd; apply Hdays, Hcurrent, Hd|].
  assert (Hactive : isStreakActive zone now (Some entries) = true <->
                    (exists e, In e entries /\
                               inUTCDay (toDateString now) (createdAt e)) \/
                    (exists e, In e entries /\
                               inUTCDay (addDays zone (toDateString now) (-1))
                                        (createdAt e))).
  { rewrite isStreakActive_zone. cbn [theEntries].
    rewrite !entryDays_inUTCDay. reflexivity. }
  split; [exact Hactive|]. split.
  { intros Hzone. rewrite <- Hactive.
    symmetry. apply isStreakActive_iff_pos_zone, Hzone. }
  split.
  { intros tza. rewrite isStreakActive_In. cbn [theEntries].
    rewrite !entryDays_inUTCDay. reflexivity. }
  intros e He Hbehind Hlate.
  assert (Hday : toDateString (createdAt e)
                 = localCalendarDay zone (createdAt e) + 1).
  { unfold toDateString, isoDatePart, localCalendarDay.
    apply Day_unique.
    unfold TimeWithinDay, LocalTime in *.
    set (t := createdAt e) in *. set (off := zone t true) in *.
    pose proof (Day_interval (t + off)) as Hloc.
    pose proof (Z.div_mod (t + off) msPerDay ltac:(discriminate)) as Hdm.
    fold (Day (t + off)) in Hdm.
    pose proof (Z.mod_pos_bound (t + off) msPerDay msPerDay_pos) as Hmod.
    lia. }
  assert (Hin : In (localCalendarDay zone (createdAt e) + 1)
                   (getUniqueDates entries)).
  { rewrite <- Hday. apply getUniqueDates_In.
    unfold entryDays.
    exact (in_map (fun entry => toDateString (createdAt entry)) _ _ He). }
  split; [exact Hday|]. split; [exact Hin|].
  destruct entries as [|e0 es]; [destruct He|].
  destruct (mostRecentDay_some e0 es) as [m Hm].
  exists m. rewrite lastEntryDate_cons. split; [exact Hm|].
  apply mostRecentDay_spec in Hm. apply Hm, getUniqueDates_In, Hin.
Qed.

(** An entry written at 23:30 on 2025-09-21 in New York, which is
    2025-09-22T03:30Z, is an entry of 2025-09-22. *)
Lemma engine_counts_UTC_days_witness :
  localCalendarDay newYork2025 (utc 2025 9 22 3 30)
  = toDateString (utc 2025 9 21 0 0) /\
  toDateString (createdAt (entryAt 2025 9 22 3 30))
  = toDateString (utc 2025 9 21 0 0) + 1 /\
  In (toDateString (utc 2025 9 21 0 0) + 1)
     (getUniqueDates [entryAt 2025 9 22 3 30]).
Proof.
  split; [reflexivity|].
  destruct (engine_counts_UTC_days newYork2025 (utc 2025 9 22 3 40)
              [entryAt 2025 9 22 3 30])
    as (_ & _ & _ & _ & _ & _ & _ & _ & _ & _ & Hlate).
  destruct (Hlate (entryAt 2025 9 22 3 30)) as (Hday & Hin & _).
  - left. reflexivity.
  - vm_compute. split; [discriminate | reflexivity].
  - vm_compute. discriminate.
  - split; [exact Hday | exact Hin].
Defined.

(** *** The scenarios of the specification *)

Example scenario_A :
  calculateStreaks (fixedOffset 0) (utc 2025 9 21 12 0)
    (Some [entryAt 2025 9 20 10 30; entryAt 2025 9 21 10 30])
  = {| currentStreak := 2;
       longestStreak := 2;
       lastEntryDate := Some (toDateString (utc 2025 9 21 0 0));
       streakDates := [toDateString (utc 2025 9 20 0 0);
                       toDateString (utc 2025 9 21 0 0)] |}.
Proof. vm_compute. reflexivity. Qed.

Example scenario_B :
  calculateStreaks (fixedOffset 0) (utc 2025 9 21 12 0)
    (Some [entryAt 2025 9 19 10 30; entryAt 2025 9 21 10 30])
  = {| currentStreak := 1;
       longestStreak := 1;
       lastEntryDate := Some (toDateString (utc 2025 9 21 0 0));
       streakDates := [toDateString (utc 2025 9 21 0 0)] |}.
Proof. vm_compute. reflexivity. Qed.

Example scenario_C :
  calculateStreaks (fixedOffset 0) (utc 2025 9 23 12 0)
    (Some [entryAt 2025 9 21 8 0; entryAt 2025 9 20 8 0;
           entryAt 2025 9 19 8 0; entryAt 2025 9 18 8 0])
  = {| currentStreak := 0;
       longestStreak := 4;
       lastEntryDate := Some (toDateString (utc 2025 9 21 0 0));
       streakDates := [] |}.
Proof. vm_compute. reflexivity. Qed.

Example scenario_D (zone : Z -> bool -> Z) (now : Z) :
  calculateStreaks zone now (Some []) = zeroStreaks.
Proof. reflexivity. Qed.

Example active_with_entry_yesterday :
  isStreakActive utcMinus5 (utc 2025 9 21 12 0)
    (Some [entryAt 2025 9 20 23 59]) = true.
Proof. reflexivity. Qed.

Example inactive_after_two_days :
  isStreakActive utcMinus5 (utc 2025 9 21 12 0)
    (Some [entryAt 2025 9 19 23 59; entryAt 2025 9 18 12 0]) = false.
Proof. reflexivity. Qed.

Example same_day_entries_collapse :
  getUniqueDates [entryAt 2025 9 21 8 0; entryAt 2025 9 21 22 0]
  = [toDateString (utc 2025 9 21 0 0)].
Proof. vm_compute. reflexivity. Qed.

Example milestone_at_5 :
  getDaysUntilNextMilestone 5 = {| daysUntil := 5; milestone := 10 |}.
Proof. reflexivity. Qed.

Example addDays_crosses_months :
  addDays utcMinus5 (toDateString (utc 2024 3 1 0 0)) (-1)
  = toDateString (utc 2024 2 29 0 0).
Proof. vm_compute. reflexivity. Qed.

(** *** Daylight saving time

    [addDays] reads its argument as UTC midnight but moves it with the
    local-time [getDate] and [setDate]; across a change of the local
    offset the backward walk can skip a day. *)

Example addDays_across_offset_change :
  addDays newYork2025 (toDateString (utc 2025 11 3 0 0)) (-1)
  = toDateString (utc 2025 11 1 0 0).
Proof. vm_compute. reflexivity. Qed.

Example calculateStreaks_across_offset_change :
  calculateStreaks newYork2025 (utc 2025 11 3 15 0)
    (Some [entryAt 2025 11 3 14 0; entryAt 2025 11 1 14 0;
           entryAt 2025 10 31 14 0])
  = {| currentStreak := 3;
       longestStreak := 2;
       lastEntryDate := Some (toDateString (utc 2025 11 3 0 0));
       streakDates := [toDateString (utc 2025 10 31 0 0);
                       toDateString (utc 2025 11 1 0 0);
                       toDateString (utc 2025 11 3 0 0)] |}.
Proof. vm_compute. reflexivity. Qed.

(** ** Further properties of the engine *)

(** *** Unique days *)

Lemma getUniqueDates_length (entries : list JournalEntry) :
  (List.length (getUniqueDates entries) <= List.length entries)%nat.
Proof.
  rewrite <- (length_map (fun e => toDateString (createdAt e)) entries).
  apply NoDup_incl_length; [apply getUniqueDates_NoDup|].
  intros d Hd. apply getUniqueDates_In in Hd. exact Hd.
Qed.

(** Two strictly descending sequences with the same elements are equal. *)
Lemma descending_ext (l1 l2 : list Z) :
  StronglySorted Z.gt l1 -> StronglySorted Z.gt l2 ->
  (forall d, In d l1 <-> In d l2) -> l1 = l2.
Proof.
  intros Hs1. revert l2.
  induction Hs1 as [|a r1 Hs1 IH Ha]; intros l2 Hs2 Hsame.
  - destruct l2 as [|b r2]; [reflexivity|].
    destruct (proj2 (Hsame b) (or_introl eq_refl)).
  - destruct Hs2 as [|b r2 Hs2 Hb].
    + destruct (proj1 (Hsame a) (or_introl eq_refl)).
    + rewrite Forall_forall in Ha, Hb.
      assert (Hab : a = b).
      { destruct (proj1 (Hsame a) (or_introl eq_refl)) as [Heq | Hin];
          [symmetry; exact Heq|].
        destruct (proj2 (Hsame b) (or_introl eq_refl)) as [Heq | Hin'];
          [exact Heq|].
        specialize (Ha _ Hin'). specialize (Hb _ Hin). lia. }
      subst b. f_equal. apply IH; [exact Hs2|].
      intros d. split; intros Hd.
      * destruct (proj1 (Hsame d) (or_intror Hd)) as [Heq | Hin];
          [|exact Hin].
        specialize (Ha _ Hd). lia.
      * destruct (proj2 (Hsame d) (or_intror Hd)) as [Heq | Hin];
          [|exact Hin].
        specialize (Hb _ Hd). lia.
Qed.

Lemma getUniqueDates_ext (es es' : list JournalEntry) :
  (forall d, In d (entryDays es) <-> In d (entryDays es')) ->
  getUniqueDates es = getUniqueDates es'.
Proof.
  intros Hsame.
  apply descending_ext; try apply getUniqueDates_descending.
  intros d. rewrite !getUniqueDates_In. apply Hsame.
Qed.

(** X1. [getUniqueDates] returns the calendar days of the entries, each
    once, newest first: the result is strictly descending, has no
    duplicate, holds exactly the days on which some entry was created, and
    is never longer than the collection. *)
Theorem getUniqueDates_newest_first_unique (entries : list JournalEntry) :
  StronglySorted Z.gt (getUniqueDates entries) /\
  NoDup (getUniqueDates entries) /\
  (forall d,
      In d (getUniqueDates entries) <->
      exists e, In e entries /\ toDateString (createdAt e) = d) /\
  (List.length (getUniqueDates entries) <= List.length entries)%nat /\
  (getUniqueDates entries = [] <-> entries = []).
Proof.
  split; [apply getUniqueDates_descending|].
  split; [apply getUniqueDates_NoDup|].
  split; [|split; [apply getUniqueDates_length | apply getUniqueDates_nil]].
  intros d. rewrite getUniqueDates_In. unfold entryDays.
  rewrite in_map_iff. split; intros (e & H1 & H2); exists e; auto.
Qed.

(** X2. Two collections give the same unique days exactly when they have
    entries on the same calendar days: neither the order of the entries
    nor several entries on one day make a difference. *)
Theorem getUniqueDates_same_days (es es' : list JournalEntry) :
  getUniqueDates es = getUniqueDates es' <->
  (forall d, In d (entryDays es) <-> In d (entryDays es')).
Proof.
  split.
  - intros Heq d. rewrite <- !getUniqueDates_In, Heq. reflexivity.
  - intros Hsame. apply descending_ext.
    + apply getUniqueDates_descending.
    + apply getUniqueDates_descending.
    + intros d. rewrite !getUniqueDates_In. apply Hsame.
Qed.

(** *** Bounds and invariance of the statistics, in every zone *)

Lemma includes_ext (l l' : list Z) (x : Z) :
  (forall d, In d l <-> In d l') -> includes l x = includes l' x.
Proof.
  intros Hsame. apply eq_true_iff_eq. rewrite !includes_In. apply Hsame.
Qed.

Lemma same_days_noEntries (es es' : list JournalEntry) :
  (forall d, In d (entryDays es) <-> In d (entryDays es')) ->
  noEntries (Some es) = noEntries (Some es').
Proof.
  intros Hsame. destruct es as [|e es], es' as [|e' es']; try reflexivity.
  - destruct (proj2 (Hsame (toDateString (createdAt e'))) (or_introl eq_refl)).
  - destruct (proj1 (Hsame (toDateString (createdAt e))) (or_introl eq_refl)).
Qed.

(** X3. In every zone and for every collection, the current streak lies
    between 0 and the number of distinct entry days, [streakDates] has
    exactly [currentStreak] elements, all of them days with an entry, and
    the longest streak lies between 0 and the number of distinct entry
    days, which it reaches exactly when the distinct days form one run of
    consecutive days. *)
Theorem streak_statistics_bounds (zone : Z -> bool -> Z) (now : Z)
        (entries : option (list JournalEntry)) :
  let r := calculateStreaks zone now entries in
  let days := getUniqueDates (theEntries entries) in
  0 <= currentStreak r <= Z.of_nat (List.length days) /\
  0 <= longestStreak r <= Z.of_nat (List.length days) /\
  (List.length days <= List.length (theEntries entries))%nat /\
  Z.of_nat (List.length (streakDates r)) = currentStreak r /\
  (forall d, In d (streakDates r) -> In d (entryDays (theEntries entries))) /\
  (longestStreak r = Z.of_nat (List.length days) <-> isRun days).
Proof.
  cbv zeta. destruct entries as [[|e es]|].
  1, 3: cbn; repeat split; try lia; tauto.
  cbn [theEntries]. set (days := getUniqueDates (e :: es)).
  unfold calculateStreaks. rewrite noEntries_cons. cbv zeta.
  cbn [currentStreak longestStreak streakDates theEntries]. fold days.
  destruct (calculateCurrentStreak_leading zone now days) as [Hstreak Hdates].
  cbv zeta in Hstreak, Hdates. rewrite Hstreak, Hdates.
  set (cands := from_length _ _) in *.
  pose proof (leading_length (includes days) cands) as Hlen.
  assert (Hcands : List.length cands = List.length days)
    by (unfold cands, from_length; rewrite length_map, length_seq;
        reflexivity).
  destruct (findLongestStreak_attained days)
    as (l1 & run & l2 & Hseg & Hrun & Hlongest).
  assert (Hseglen : (List.length days
                     = List.length l1 + List.length run + List.length l2)%nat)
    by (rewrite Hseg, !length_app; lia).
  split; [lia|]. split; [lia|].
  split; [apply getUniqueDates_length|].
  split; [rewrite length_rev; reflexivity|]. split.
  - intros d Hd. apply in_rev in Hd.
    pose proof (leading_Forall (includes days) cands) as Hall.
    rewrite Forall_forall in Hall. apply Hall, includes_In in Hd.
    apply getUniqueDates_In. exact Hd.
  - split.
    + intros Hfull.
      assert (Hl1 : l1 = []) by (apply length_zero_iff_nil; lia).
      assert (Hl2 : l2 = []) by (apply length_zero_iff_nil; lia).
      rewrite Hseg, Hl1, Hl2, app_nil_r. exact Hrun.
    + intros Hdays.
      pose proof (findLongestStreak_upper days [] days []
                    ltac:(rewrite app_nil_r; reflexivity) Hdays).
      lia.
Qed.

(** X4. In every zone, the results of [calculateStreaks] and of
    [isStreakActive] are the same for two collections that have entries
    on the same calendar days: the order of the entries and the number of
    entries on one day do not matter. *)
Theorem statistics_depend_on_day_set (zone : Z -> bool -> Z) (now : Z)
        (es es' : list JournalEntry) :
  (forall d, In d (entryDays es) <-> In d (entryDays es')) ->
  calculateStreaks zone now (Some es) = calculateStreaks zone now (Some es') /\
  isStreakActive zone now (Some es) = isStreakActive zone now (Some es').
Proof.
  intros Hsame.
  pose proof (same_days_noEntries es es' Hsame) as Hno.
  pose proof (getUniqueDates_ext es es' Hsame) as Hdays.
  unfold calculateStreaks, isStreakActive.
  rewrite Hno. cbn [theEntries]. rewrite Hdays.
  fold (entryDays es) (entryDays es').
  rewrite (includes_ext _ _ (toDateString now) Hsame).
  rewrite (includes_ext _ _ (addDays zone (toDateString now) (-1)) Hsame).
  split; reflexivity.
Qed.

Lemma statistics_depend_on_day_set_witness :
  calculateStreaks newYork2025 (utc 2025 9 21 12 0)
    (Some [entryAt 2025 9 21 8 0; entryAt 2025 9 20 7 0;
           entryAt 2025 9 21 22 0])
  = calculateStreaks newYork2025 (utc 2025 9 21 12 0)
      (Some [entryAt 2025 9 20 23 0; entryAt 2025 9 21 1 0]) /\
  isStreakActive newYork2025 (utc 2025 9 21 12 0)
    (Some [entryAt 2025 9 21 8 0; entryAt 2025 9 20 7 0;
           entryAt 2025 9 21 22 0])
  = isStreakActive newYork2025 (utc 2025 9 21 12 0)
      (Some [entryAt 2025 9 20 23 0; entryAt 2025 9 21 1 0]).
Proof.
  apply (statistics_depend_on_day_set newYork2025 (utc 2025 9 21 12 0)).
  intros d. vm_compute. tauto.
Defined.

(** *** Day arithmetic *)

(** X6. In a zone with a constant offset [addDays] is an action of the
    integers on calendar days: adding 0 days changes nothing, adding [m]
    and then [n] days is adding [m + n] days, adding [- n] undoes adding
    [n], and the result grows strictly with the day and with the number of
    days. *)
Theorem addDays_composes (tza : Z) :
  let zone := fixedOffset tza in
  (forall d, addDays zone d 0 = d) /\
  (forall d m n, addDays zone (addDays zone d m) n = addDays zone d (m + n)) /\
  (forall d n, addDays zone (addDays zone d n) (- n) = d) /\
  (forall d d' n, d < d' <-> addDays zone d n < addDays zone d' n) /\
  (forall d n n', n < n' <-> addDays zone d n < addDays zone d n').
Proof.
  cbv zeta. repeat split; intros; rewrite ?addDays_plus in *; lia.
Qed.

(** X7. [daysBetween] and [addDays] (in a zone with a constant offset) are
    inverse to each other: the number of days between [addDays d n] and
    [d] is [n], and adding to [d] the number of days between [a] and [d]
    gives [a].  [daysBetween] is 0 exactly on equal days, changes sign
    when its arguments are swapped, and adds up along a chain of days. *)
Theorem daysBetween_addDays_round_trip (tza : Z) :
  let zone := fixedOffset tza in
  (forall d n, daysBetween (addDays zone d n) d = n) /\
  (forall a d, addDays zone d (daysBetween a d) = a) /\
  (forall a b, daysBetween a b = 0 <-> a = b) /\
  (forall a b, daysBetween a b = - daysBetween b a) /\
  (forall a b c, daysBetween a c = daysBetween a b + daysBetween b c).
Proof.
  cbv zeta. repeat split; intros;
    rewrite ?addDays_plus, ?daysBetween_minus in *; lia.
Qed.

(** X8. In any zone [addDays d n] is [d + n] or the day before it.  With
    [src] the local offset at UTC midnight of [d] and [dst] the offset in
    effect at the local time reached by moving [n] days, and the two less
    than a day apart, the result is [d + n] when [dst <= src] and
    [d + n - 1] when [dst > src]: moving across a change of the offset
    towards the larger offset (back over the end of daylight saving time,
    forward over its start) loses a day. *)
Theorem addDays_offset_change (zone : Z -> bool -> Z) (d n : Z) :
  let src := zone (parseDay d) true in
  let dst := zone (parseDay d + src + n * msPerDay) false in
  - msPerDay < src - dst < msPerDay ->
  addDays zone d n = if dst <=? src then d + n else d + n - 1.
Proof.
  cbv zeta. intros Hdiff. unfold addDays. cbv zeta.
  rewrite setDate_getDate_zone.
  set (src := zone (parseDay d) true) in *.
  set (dst := zone (parseDay d + src + n * msPerDay) false) in *.
  unfold toDateString, isoDatePart. apply Day_unique.
  unfold parseDay, MakeDate in *.
  destruct (Z.leb_spec dst src); lia.
Qed.

Lemma addDays_offset_change_witness :
  addDays newYork2025 (toDateString (utc 2025 11 3 0 0)) (-1)
  = toDateString (utc 2025 11 3 0 0) + -1 - 1.
Proof.
  apply (addDays_offset_change newYork2025 (toDateString (utc 2025 11 3 0 0))
           (-1)).
  vm_compute. split; reflexivity.
Defined.

(** *** Adding entries *)

(** The walk counts every leading candidate that has an entry. *)
Lemma streakLen_lower (now : Z) (days : list Z) (m : nat) :
  (forall i, 0 <= i < Z.of_nat m -> In (anchor now days - i) days) ->
  (m <= streakLen now days)%nat.
Proof.
  intros Hin.
  assert (Hm : (m <= List.length days)%nat).
  { rewrite <- (downFrom_length (anchor now days) m).
    apply NoDup_incl_length; [apply downFrom_NoDup|].
    intros d Hd. apply downFrom_In in Hd.
    replace d with (anchor now days - (anchor now days - d)) by lia.
    apply Hin. lia. }
  destruct (Nat.le_gt_cases m (streakLen now days)) as [Hle | Hgt];
    [exact Hle|].
  exfalso. apply (streak_stop now days); [lia|]. apply Hin. lia.
Qed.

Lemma streakLen_incl (now : Z) (days days' : list Z) :
  incl days days' -> (streakLen now days <= streakLen now days')%nat.
Proof.
  intros Hincl.
  pose proof (streak_days_In now days) as Hrun.
  destruct (streakLen now days) as [|k] eqn:Hk; [lia|].
  assert (Hanchor : In (anchor now days) days)
    by (apply streak_pos_iff; lia).
  unfold anchor in Hrun, Hanchor |- *.
  destruct (includes days (toDateString now)) eqn:Htoday.
  - apply includes_In in Htoday.
    apply streakLen_lower. unfold anchor.
    rewrite (proj2 (includes_In days' _) (Hincl _ Htoday)).
    intros i Hi. apply Hincl, Hrun, Hi.
  - destruct (includes days' (toDateString now)) eqn:Htoday'.
    + assert (Hbig : (S (S k) <= streakLen now days')%nat).
      { apply streakLen_lower. unfold anchor. rewrite Htoday'.
        intros i Hi. destruct (Z.eq_dec i 0) as [-> | Hi0].
        - rewrite Z.sub_0_r. apply includes_In, Htoday'.
        - replace (toDateString now - i)
            with (toDateString now - 1 - (i - 1)) by lia.
          apply Hincl, Hrun. lia. }
      lia.
    + apply streakLen_lower. unfold anchor. rewrite Htoday'.
      intros i Hi. apply Hincl, Hrun, Hi.
Qed.

Lemma findLongestStreak_incl (days days' : list Z) :
  StronglySorted Z.gt days' -> incl days days' ->
  findLongestStreak days <= findLongestStreak days'.
Proof.
  intros Hs' Hincl.
  destruct (findLongestStreak_attained days)
    as (l1 & run & l2 & Hseg & Hrun & <-).
  destruct run as [|a run]; [|].
  - apply (findLongestStreak_upper days' [] [] days'); [reflexivity | exact I].
  - rewrite (isRun_downFrom_eq run a Hrun) in Hseg |- *.
    rewrite downFrom_length.
    destruct (descending_range_segment (S (List.length run)) a days' Hs')
      as (l1' & l2' & Hseg').
    + intros i Hi. apply Hincl. rewrite Hseg.
      apply in_or_app. right. apply in_or_app. left.
      apply downFrom_In. lia.
    + pose proof (findLongestStreak_upper days' l1' _ l2' Hseg'
                    (isRun_downFrom _ _)) as Hup.
      rewrite downFrom_length in Hup. exact Hup.
Qed.

(** X9. With the clock fixed, in a zone with a constant offset, entries
    on further days never shorten a streak: when every day that has an
    entry in one collection has an entry in a second one, the current and
    the longest streak of the second are at least those of the first, and
    the second is active when the first is. *)
Theorem more_days_never_shorten (tza now : Z) (es es' : list JournalEntry) :
  (forall d, In d (entryDays es) -> In d (entryDays es')) ->
  let r := calculateStreaks (fixedOffset tza) now (Some es) in
  let r' := calculateStreaks (fixedOffset tza) now (Some es') in
  currentStreak r <= currentStreak r' /\
  longestStreak r <= longestStreak r' /\
  (isStreakActive (fixedOffset tza) now (Some es) = true ->
   isStreakActive (fixedOffset tza) now (Some es') = true).
Proof.
  intros Hsub. cbv zeta. split; [|split].
  - destruct es as [|e es]; destruct es' as [|e' es'];
      rewrite ?calculateStreaks_cons; cbn [currentStreak]; try lia.
    + cbn. lia.
    + destruct (Hsub _ (or_introl eq_refl)).
    + apply inj_le, streakLen_incl. intros d Hd.
      apply getUniqueDates_In, Hsub, getUniqueDates_In, Hd.
  - destruct es as [|e es]; destruct es' as [|e' es'];
      rewrite ?calculateStreaks_cons; cbn [longestStreak].
    + cbn. lia.
    + pose proof (findLongestStreak_pos
                    (hd 0 (getUniqueDates (e' :: es')))
                    (tl (getUniqueDates (e' :: es')))) as Hpos.
      destruct (getUniqueDates (e' :: es')) as [|p rest] eqn:Hdays.
      * apply getUniqueDates_nil in Hdays. discriminate Hdays.
      * cbn [hd tl] in Hpos. cbn [calculateStreaks noEntries longestStreak].
        change (longestStreak
                  (calculateStreaks (fixedOffset tza) now (Some [])))
          with 0.
        lia.
    + destruct (Hsub _ (or_introl eq_refl)).
    + apply findLongestStreak_incl; [apply getUniqueDates_descending|].
      intros d Hd. apply getUniqueDates_In, Hsub, getUniqueDates_In, Hd.
  - rewrite !isStreakActive_In. cbn [theEntries].
    intros [H | H]; [left | right]; apply Hsub, H.
Qed.

Lemma more_days_never_shorten_witness :
  currentStreak
    (calculateStreaks utcMinus5 (utc 2025 9 21 12 0)
       (Some [entryAt 2025 9 20 9 0; entryAt 2025 9 18 9 0]))
  <= currentStreak
       (calculateStreaks utcMinus5 (utc 2025 9 21 12 0)
          (Some [entryAt 2025 9 21 7 0; entryAt 2025 9 18 9 0;
                 entryAt 2025 9 20 9 0; entryAt 2025 9 19 9 0])).
Proof.
  apply (more_days_never_shorten (- 5 * 60 * 60 * 1000) (utc 2025 9 21 12 0)
           [entryAt 2025 9 20 9 0; entryAt 2025 9 18 9 0]
           [entryAt 2025 9 21 7 0; entryAt 2025 9 18 9 0;
            entryAt 2025 9 20 9 0; entryAt 2025 9 19 9 0]).
  intros d. vm_compute. tauto.
Defined.

(** *** Status message *)

Lemma getStreakStatusMessage_cases (now : Z) (data : StreakData) :
  getStreakStatusMessage now data
  = if currentStreak data =? 0 then startMessage
    else if match lastEntryDate data with
            | Some d => d =? toDateString now
            | None => false
            end
         then celebration (currentStreak data)
         else reminder (currentStreak data).
Proof.
  unfold getStreakStatusMessage, celebration, reminder, startMessage.
  cbv zeta.
  destruct (currentStreak data =? 0); [reflexivity|].
  destruct (lastEntryDate data) as [d|];
    [destruct (d =? toDateString now)|];
    destruct (currentStreak data =? 1); reflexivity.
Qed.


(** *** Milestones, for every streak *)

Lemma milestone_is_least (n : Z) :
  let m := milestone (getDaysUntilNextMilestone n) in
  isMilestone m /\ n <= m /\
  (forall m', isMilestone m' -> n < m' -> m <= m') /\
  (m = n <-> 1000 <= n /\ n mod 100 = 0).
Proof.
  cbv zeta. destruct (Z.lt_ge_cases n 1000) as [Hlow | Hhigh].
  - assert (Htable : forall m', isMilestone m' ->
                       m' = 5 \/ m' = 10 \/ m' = 25 \/ m' = 50 \/ m' = 100 \/
                       m' = 200 \/ m' = 365 \/ m' = 500 \/ 1000 <= m').
    { intros m' [Hin | [Hbig _]]; [|lia]. unfold milestones in Hin.
      cbn [In] in Hin. lia. }
    unfold getDaysUntilNextMilestone, isMilestone, milestones.
    cbn [find milestone].
    repeat match goal with
           | |- context [n <? ?k] => destruct (Z.ltb_spec n k)
           end; try lia;
      (split; [cbn [In]; tauto|]); (split; [lia|]);
      (split; [intros m' Hm' Hlt; apply Htable in Hm'; lia | lia]).
  - destruct (milestone_from_1000 n Hhigh)
      as (Hm & _ & Hmod & Hbound & Hexact & Hstrict).
    cbv zeta in *. clear Hm.
    set (m := milestone (getDaysUntilNextMilestone n)) in *.
    split; [right; split; [lia | exact Hmod]|]. split; [lia|]. split.
    + intros m' [Hin | [Hbig Hmod']] Hlt.
      * unfold milestones in Hin. cbn [In] in Hin. lia.
      * pose proof (Z.div_mod m 100 ltac:(lia)).
        pose proof (Z.div_mod m' 100 ltac:(lia)). lia.
    + split.
      * intros Heq. split; [exact Hhigh|].
        destruct (Z.eq_dec (n mod 100) 0) as [H0 | H0]; [exact H0|].
        specialize (Hstrict H0). lia.
      * intros [_ H0]. apply Hexact, H0.
Qed.

(** X11. For every integer streak, [getDaysUntilNextMilestone] returns a
    milestone number (a milestone of the table or a multiple of 100 from
    1000 on) that no milestone number above the streak undercuts, and
    [daysUntil] is its distance from the streak, never negative.  The
    distance is 0, the milestone being the streak itself, exactly for the
    multiples of 100 from 1000 on; for every other streak the milestone is
    the least milestone number strictly above it.  A longer streak never
    gets a smaller milestone. *)
Theorem getDaysUntilNextMilestone_least (n : Z) :
  let r := getDaysUntilNextMilestone n in
  isMilestone (milestone r) /\
  daysUntil r = milestone r - n /\
  0 <= daysUntil r /\
  (forall m', isMilestone m' -> n < m' -> milestone r <= m') /\
  (daysUntil r = 0 <-> 1000 <= n /\ n mod 100 = 0) /\
  (forall n', n <= n' ->
              milestone r <= milestone (getDaysUntilNextMilestone n')).
Proof.
  cbv zeta.
  destruct (milestone_is_least n) as (Hmile & Hge & Hleast & Hzero).
  cbv zeta in *.
  assert (Hdays : daysUntil (getDaysUntilNextMilestone n)
                  = milestone (getDaysUntilNextMilestone n) - n)
    by reflexivity.
  rewrite Hdays.
  split; [exact Hmile|]. split; [reflexivity|]. split; [lia|].
  split; [exact Hleast|]. split.
  - rewrite <- Hzero. lia.
  - intros n' Hle.
    destruct (milestone_is_least n') as (Hmile' & Hge' & _ & Hzero').
    cbv zeta in *.
    destruct (Z.eq_dec n (milestone (getDaysUntilNextMilestone n')))
      as [Heq | Hneq].
    + assert (n' = n) as -> by lia. lia.
    + apply Hleast; [exact Hmile' | lia].
Qed.

(** *** The most recent entry and the streak *)

(** X12. In a zone with a constant offset, when no entry is dated after
    today and the current streak is not 0, the streak ends at the most
    recent entry: [lastEntryDate] is the last element of [streakDates],
    and it is today or yesterday. *)
Theorem streak_ends_at_lastEntryDate (tza now : Z)
        (entries : option (list JournalEntry)) :
  let r := calculateStreaks (fixedOffset tza) now entries in
  (forall d, In d (entryDays (theEntries entries)) -> d <= toDateString now) ->
  1 <= currentStreak r ->
  exists older m,
    streakDates r = older ++ [m] /\ lastEntryDate r = Some m /\
    (m = toDateString now \/
     m = addDays (fixedOffset tza) (toDateString now) (-1)).
Proof.
  cbv zeta. intros Hpast Hpos. rewrite addDays_plus.
  destruct entries as [[|e es]|]; [cbn in Hpos; lia | | cbn in Hpos; lia].
  rewrite calculateStreaks_cons in *.
  cbn [currentStreak lastEntryDate streakDates theEntries] in *.
  set (days := getUniqueDates (e :: es)) in *.
  pose proof (getUniqueDates_In (e :: es)) as Hdays. fold days in Hdays.
  destruct (streakLen now days) as [|k] eqn:Hk; [lia|].
  assert (Hanchor : In (anchor now days) days)
    by (apply streak_pos_iff; lia).
  destruct (mostRecentDay_some e es) as [m Hm].
  pose proof Hm as Hspec. apply mostRecentDay_spec in Hspec.
  destruct Hspec as [Hin Hmax].
  assert (Hend : m = anchor now days).
  { pose proof (Hmax _ (proj1 (Hdays _) Hanchor)) as Hge.
    pose proof (Hpast _ Hin) as Hle.
    unfold anchor in *.
    destruct (includes days (toDateString now)) eqn:Htoday; [lia|].
    apply includes_false in Htoday.
    assert (m <> toDateString now)
      by (intros ->; apply Htoday, Hdays, Hin).
    lia. }
  exists (upFrom (anchor now days - Z.of_nat (S k) + 1) k), m.
  split; [|split; [exact Hm|]].
  - rewrite upFrom_snoc. f_equal. f_equal. lia.
  - rewrite Hend. unfold anchor.
    destruct (includes days (toDateString now)); [left | right]; lia.
Qed.

Lemma streak_ends_at_lastEntryDate_witness :
  exists older m,
    streakDates
      (calculateStreaks utcMinus5 (utc 2025 9 21 12 0)
         (Some [entryAt 2025 9 20 9 0; entryAt 2025 9 19 9 0;
                entryAt 2025 9 17 9 0]))
    = older ++ [m] /\
    lastEntryDate
      (calculateStreaks utcMinus5 (utc 2025 9 21 12 0)
         (Some [entryAt 2025 9 20 9 0; entryAt 2025 9 19 9 0;
                entryAt 2025 9 17 9 0]))
    = Some m /\
    (m = toDateString (utc 2025 9 21 12 0) \/
     m = addDays utcMinus5 (toDateString (utc 2025 9 21 12 0)) (-1)).
Proof.
  apply (streak_ends_at_lastEntryDate (- 5 * 60 * 60 * 1000)
           (utc 2025 9 21 12 0)
           (Some [entryAt 2025 9 20 9 0; entryAt 2025 9 19 9 0;
                  entryAt 2025 9 17 9 0])).
  - intros d Hd. vm_compute in Hd.
    destruct Hd as [<- | [<- | [<- | []]]]; vm_compute; discriminate.
  - vm_compute. discriminate.
Defined.

Lemma celebration_not_start (n : Z) : celebration n <> startMessage.
Proof.
  unfold celebration, startMessage. destruct (n =? 1); discriminate.
Qed.

Lemma reminder_not_start (n : Z) : reminder n <> startMessage.
Proof.
  unfold reminder, startMessage, Number_toString.
  destruct (n =? 1); [discriminate|].
  destruct (Z.to_int n) as [u | u]; [destruct u|]; cbn; discriminate.
Qed.

(** X13. In a zone with a constant offset, the message for the result of
    [calculateStreaks] is the invitation to start a streak exactly when
    [isStreakActive] is false for the same collection and clock. *)
Theorem start_message_iff_inactive (tza now : Z)
        (entries : option (list JournalEntry)) :
  getStreakStatusMessage now (calculateStreaks (fixedOffset tza) now entries)
  = startMessage <->
  isStreakActive (fixedOffset tza) now entries = false.
Proof.
  rewrite getStreakStatusMessage_cases.
  assert (Hactive : isStreakActive (fixedOffset tza) now entries = true <->
                    0 < currentStreak
                          (calculateStreaks (fixedOffset tza) now entries)).
  { rewrite isStreakActive_In. destruct entries as [[|e es]|].
    - cbn. split; [tauto | lia].
    - rewrite calculateStreaks_cons. cbn [currentStreak theEntries].
      set (days := getUniqueDates (e :: es)).
      rewrite <- !(getUniqueDates_In (e :: es)). fold days.
      pose proof (streak_pos_iff now days) as Hpos. unfold anchor in Hpos.
      destruct (includes days (toDateString now)) eqn:Htoday.
      + apply includes_In in Htoday. pose proof (proj2 Hpos Htoday) as Hk.
        split; [intros _; lia | intros _; left; exact Htoday].
      + apply includes_false in Htoday. split.
        * intros [H | H]; [contradiction | apply Hpos in H; lia].
        * intros H. right. apply Hpos. lia.
    - cbn. split; [tauto | lia]. }
  assert (Hnonneg : 0 <= currentStreak
                          (calculateStreaks (fixedOffset tza) now entries)).
  { destruct entries as [[|e es]|]; rewrite ?calculateStreaks_cons;
      cbn; lia. }
  destruct (Z.eqb_spec (currentStreak
                          (calculateStreaks (fixedOffset tza) now entries)) 0)
    as [Hzero | Hpos].
  - split; [|reflexivity]. intros _.
    destruct (isStreakActive (fixedOffset tza) now entries); [|reflexivity].
    assert (0 < currentStreak
                  (calculateStreaks (fixedOffset tza) now entries))
      by (apply Hactive; reflexivity).
    lia.
  - split.
    + intros Hmsg. exfalso. revert Hmsg.
      destruct (match lastEntryDate _ with Some _ => _ | None => _ end);
        [apply celebration_not_start | apply reminder_not_start].
    + intros Hinactive.
      assert (isStreakActive (fixedOffset tza) now entries = true)
        by (apply Hactive; lia).
      congruence.
Qed.

(** *** Writing today, and letting days pass *)

Lemma anchor_same_streakLen (now now' : Z) (days : list Z) :
  anchor now days = anchor now' days ->
  streakLen now days = streakLen now' days.
Proof. unfold streakLen. intros ->. reflexivity. Qed.

Lemma streakLen_today_added (now : Z) (days days' : list Z) :
  NoDup days' ->
  (forall d, In d days' <-> d = toDateString now \/ In d days) ->
  ~ In (toDateString now) days ->
  streakLen now days' = S (streakLen now days).
Proof.
  intros Hnd Hdays' Htoday.
  assert (Ha' : anchor now days' = toDateString now).
  { unfold anchor.
    rewrite (proj2 (includes_In days' _)) by (apply Hdays'; left; reflexivity).
    reflexivity. }
  assert (Ha : anchor now days = toDateString now - 1).
  { unfold anchor. rewrite (proj2 (includes_false days _) Htoday).
    reflexivity. }
  apply Nat.le_antisymm.
  - destruct (Nat.le_gt_cases (streakLen now days') (S (streakLen now days)))
      as [Hle | Hgt]; [exact Hle | exfalso].
    assert (Hlen : (List.length days' <= S (List.length days))%nat).
    { change (S (List.length days))
        with (List.length (toDateString now :: days)).
      apply NoDup_incl_length; [exact Hnd|].
      intros d Hd. apply Hdays' in Hd. destruct Hd as [-> | Hd];
        [left; reflexivity | right; exact Hd]. }
    pose proof (streakLen_le now days') as Hcap.
    assert (Hlt : (streakLen now days < List.length days)%nat) by lia.
    apply (streak_stop now days Hlt).
    pose proof (streak_days_In now days'
                  (Z.of_nat (S (streakLen now days))) ltac:(lia)) as Hin.
    rewrite Ha' in Hin. apply Hdays' in Hin.
    destruct Hin as [Heq | Hin]; [lia|].
    rewrite Ha.
    replace (toDateString now - 1 - Z.of_nat (streakLen now days))
      with (toDateString now - Z.of_nat (S (streakLen now days))) by lia.
    exact Hin.
  - apply streakLen_lower. rewrite Ha'. intros i Hi.
    apply Hdays'. destruct (Z.eq_dec i 0) as [-> | Hi0]; [left; lia|].
    right.
    replace (toDateString now - i) with (anchor now days - (i - 1))
      by (rewrite Ha; lia).
    apply streak_days_In. lia.
Qed.

(** X14. In a zone with a constant offset, the first entry of today
    lengthens the current streak by exactly one: for a collection without
    an entry today, adding an entry created today (wherever it is put)
    gives a current streak one larger, an active streak, and a longest
    streak that is not smaller. *)
Theorem first_entry_today_adds_one (tza now : Z)
        (es es' : list JournalEntry) :
  ~ In (toDateString now) (entryDays es) ->
  (forall d, In d (entryDays es') <->
             d = toDateString now \/ In d (entryDays es)) ->
  let r := calculateStreaks (fixedOffset tza) now (Some es) in
  let r' := calculateStreaks (fixedOffset tza) now (Some es') in
  currentStreak r' = currentStreak r + 1 /\
  isStreakActive (fixedOffset tza) now (Some es') = true /\
  longestStreak r <= longestStreak r'.
Proof.
  intros Htoday Hadded. cbv zeta.
  destruct es' as [|e' es'];
    [destruct (proj2 (Hadded _) (or_introl eq_refl))|].
  rewrite (calculateStreaks_cons tza now e' es').
  cbn [currentStreak longestStreak].
  set (days' := getUniqueDates (e' :: es')).
  assert (Hdays' : forall d, In d days' <->
                             d = toDateString now \/
                             In d (getUniqueDates es)).
  { intros d. unfold days'. rewrite !getUniqueDates_In. apply Hadded. }
  assert (Hlen : streakLen now days' = S (streakLen now (getUniqueDates es))).
  { apply streakLen_today_added;
      [apply getUniqueDates_NoDup | exact Hdays' |].
    rewrite getUniqueDates_In. exact Htoday. }
  assert (Hincl : incl (getUniqueDates es) days')
    by (intros d Hd; apply Hdays'; right; exact Hd).
  pose proof (findLongestStreak_incl _ _
                (getUniqueDates_descending (e' :: es')) Hincl) as Hlong.
  fold days' in Hlong.
  split; [|split].
  - rewrite Hlen. destruct es as [|e es].
    + cbn. reflexivity.
    + rewrite calculateStreaks_cons. cbn [currentStreak]. lia.
  - apply isStreakActive_In. left. cbn [theEntries].
    apply Hadded. left. reflexivity.
  - destruct es as [|e es].
    + cbn [calculateStreaks noEntries longestStreak List.length Nat.eqb].
      cbn in Hlong. exact Hlong.
    + rewrite calculateStreaks_cons. cbn [longestStreak]. exact Hlong.
Qed.

Lemma first_entry_today_adds_one_witness :
  currentStreak
    (calculateStreaks utcMinus5 (utc 2025 9 21 12 0)
       (Some [entryAt 2025 9 20 9 0; entryAt 2025 9 21 11 0;
              entryAt 2025 9 19 9 0]))
  = currentStreak
      (calculateStreaks utcMinus5 (utc 2025 9 21 12 0)
         (Some [entryAt 2025 9 20 9 0; entryAt 2025 9 19 9 0])) + 1.
Proof.
  apply (first_entry_today_adds_one (- 5 * 60 * 60 * 1000)
           (utc 2025 9 21 12 0)
           [entryAt 2025 9 20 9 0; entryAt 2025 9 19 9 0]
           [entryAt 2025 9 20 9 0; entryAt 2025 9 21 11 0;
            entryAt 2025 9 19 9 0]).
  - vm_compute. intros [H | [H | []]]; discriminate H.
  - intros d. vm_compute. intuition congruence.
Defined.

(** X15. The grace period as time passes (zone with a constant offset).
    For a collection whose most recent entry is dated today: on the next
    day, without a new entry, the current streak is unchanged and the
    streak is still active; from the second day on the current streak is 0
    and the streak is not active.  The longest streak and [lastEntryDate]
    do not change with the clock. *)
Theorem streak_survives_one_day (tza now later : Z)
        (entries : list JournalEntry) :
  In (toDateString now) (entryDays entries) ->
  (forall d, In d (entryDays entries) -> d <= toDateString now) ->
  let zone := fixedOffset tza in
  let r := calculateStreaks zone now (Some entries) in
  let r' := calculateStreaks zone later (Some entries) in
  (toDateString later = toDateString now + 1 ->
   currentStreak r' = currentStreak r /\
   isStreakActive zone later (Some entries) = true) /\
  (toDateString now + 2 <= toDateString later ->
   currentStreak r' = 0 /\
   isStreakActive zone later (Some entries) = false) /\
  longestStreak r' = longestStreak r /\
  lastEntryDate r' = lastEntryDate r.
Proof.
  intros Htoday Hpast. cbv zeta.
  destruct entries as [|e es]; [destruct Htoday|].
  rewrite !calculateStreaks_cons.
  cbn [currentStreak longestStreak lastEntryDate].
  set (days := getUniqueDates (e :: es)).
  pose proof (getUniqueDates_In (e :: es)) as Hdays. fold days in Hdays.
  assert (Hnone : forall d, toDateString now < d -> includes days d = false).
  { intros d Hd. apply includes_false. rewrite Hdays. intros Hin.
    specialize (Hpast _ Hin). lia. }
  assert (Hnow : anchor now days = toDateString now).
  { unfold anchor.
    rewrite (proj2 (includes_In days _)) by (apply Hdays, Htoday).
    reflexivity. }
  split; [|split; [|split; reflexivity]].
  - intros Hnext. split.
    + f_equal. apply anchor_same_streakLen. rewrite Hnow.
      unfold anchor. rewrite Hnone by lia. lia.
    + apply isStreakActive_In. right. cbn [theEntries].
      replace (toDateString later - 1) with (toDateString now) by lia.
      exact Htoday.
  - intros Hlate. split.
    + destruct (streakLen later days) as [|k] eqn:Hk; [reflexivity|].
      exfalso.
      assert (Hin : In (anchor later days) days)
        by (apply streak_pos_iff; lia).
      unfold anchor in Hin. rewrite Hnone in Hin by lia.
      apply includes_In in Hin. rewrite Hnone in Hin by lia.
      discriminate Hin.
    + destruct (isStreakActive (fixedOffset tza) later (Some (e :: es)))
        eqn:Hactive; [|reflexivity].
      apply isStreakActive_In in Hactive. cbn [theEntries] in Hactive.
      destruct Hactive as [Hin | Hin]; specialize (Hpast _ Hin); lia.
Qed.

Lemma streak_survives_one_day_witness :
  currentStreak
    (calculateStreaks utcMinus5 (utc 2025 9 22 23 0)
       (Some [entryAt 2025 9 21 9 0; entryAt 2025 9 20 9 0]))
  = currentStreak
      (calculateStreaks utcMinus5 (utc 2025 9 21 12 0)
         (Some [entryAt 2025 9 21 9 0; entryAt 2025 9 20 9 0])) /\
  isStreakActive utcMinus5 (utc 2025 9 22 23 0)
    (Some [entryAt 2025 9 21 9 0; entryAt 2025 9 20 9 0]) = true.
Proof.
  apply (streak_survives_one_day (- 5 * 60 * 60 * 1000)
           (utc 2025 9 21 12 0) (utc 2025 9 22 23 0)
           [entryAt 2025 9 21 9 0; entryAt 2025 9 20 9 0]).
  - vm_compute. left. reflexivity.
  - intros d Hd. vm_compute in Hd.
    destruct Hd as [<- | [<- | []]]; vm_compute; discriminate.
  - reflexivity.
Defined.

(** ** The entry form *)

Module JSStringFacts.
Import JSString FormSpec.

Lemma trimStart_spec (s : list Z) :
  exists ws, s = ws ++ trimStart s /\ forallb isWhiteSpace ws = true.
Proof.
  induction s as [|c s IH]; [exists []; auto|].
  cbn [trimStart]. destruct (isWhiteSpace c) eqn:Hc.
  - destruct IH as (ws & Heq & Hws). exists (c :: ws). split.
    + cbn. f_equal. exact Heq.
    + cbn. rewrite Hc, Hws. reflexivity.
  - exists []. auto.
Qed.

Lemma trimStart_head (s : list Z) (c : Z) (rest : list Z) :
  trimStart s = c :: rest -> isWhiteSpace c = false.
Proof.
  induction s as [|x s IH]; cbn [trimStart]; [discriminate|].
  destruct (isWhiteSpace x) eqn:Hx; [exact IH|].
  intros [= <- _]. exact Hx.
Qed.

Lemma trimStart_snoc (s : list Z) (c : Z) :
  isWhiteSpace c = false -> trimStart (s ++ [c]) = trimStart s ++ [c].
Proof.
  intros Hc. induction s as [|x s IH]; cbn [app trimStart].
  - rewrite Hc. reflexivity.
  - destruct (isWhiteSpace x); [exact IH | reflexivity].
Qed.

Lemma trimStart_nil_iff (s : list Z) :
  trimStart s = [] <-> forallb isWhiteSpace s = true.
Proof.
  induction s as [|c s IH]; cbn [trimStart forallb]; [tauto|].
  destruct (isWhiteSpace c); cbn [andb]; [exact IH|].
  split; discriminate.
Qed.

Lemma trimEnd_cons (c : Z) (s : list Z) :
  isWhiteSpace c = false -> trimEnd (c :: s) = c :: trimEnd s.
Proof.
  intros Hc. unfold trimEnd. cbn [rev].
  rewrite trimStart_snoc by exact Hc. rewrite rev_app_distr. reflexivity.
Qed.

Lemma trimEnd_spec (s : list Z) :
  exists ws, s = trimEnd s ++ ws /\ forallb isWhiteSpace ws = true.
Proof.
  unfold trimEnd. destruct (trimStart_spec (rev s)) as (ws & Heq & Hws).
  exists (rev ws). split.
  - rewrite <- rev_app_distr, <- Heq, rev_involutive. reflexivity.
  - rewrite forallb_forall in *. intros x Hx. apply Hws, in_rev, Hx.
Qed.

Lemma trimEnd_last (s front : list Z) (c : Z) :
  trimEnd s = front ++ [c] -> isWhiteSpace c = false.
Proof.
  unfold trimEnd. intros Heq.
  apply (f_equal (@rev Z)) in Heq.
  rewrite rev_involutive, rev_app_distr in Heq. cbn in Heq.
  exact (trimStart_head _ _ _ Heq).
Qed.

Lemma trim_trimOf (s : list Z) : trimOf s (trim s).
Proof.
  unfold trim.
  destruct (trimStart_spec s) as (l & Hl & Hwl).
  destruct (trimEnd_spec (trimStart s)) as (r & Hr & Hwr).
  exists l, r. split; [|split; [exact Hwl | split; [exact Hwr|]]].
  - rewrite <- Hr. exact Hl.
  - split.
    + intros c rest Heq.
      destruct (trimStart s) as [|x t] eqn:Hstart; [discriminate Heq|].
      pose proof (trimStart_head s x t Hstart) as Hx.
      rewrite (trimEnd_cons x t Hx) in Heq.
      injection Heq as <- _. exact Hx.
    + intros front c Heq. exact (trimEnd_last _ _ _ Heq).
Qed.

Lemma forallb_app_true {A : Type} (p : A -> bool) (l1 l2 : list A) :
  forallb p (l1 ++ l2) = true <->
  forallb p l1 = true /\ forallb p l2 = true.
Proof. rewrite forallb_app, andb_true_iff. reflexivity. Qed.

Lemma trim_nil_iff (s : list Z) :
  trim s = [] <-> forallb isWhiteSpace s = true.
Proof.
  destruct (trim_trimOf s) as (l & r & Heq & Hl & Hr & _). split.
  - intros Hnil. rewrite Hnil in Heq. rewrite Heq. cbn [app].
    apply forallb_app_true. split; assumption.
  - intros Hall. unfold trim.
    apply trimStart_nil_iff in Hall. rewrite Hall. reflexivity.
Qed.

Lemma isEmptyString_true (s : list Z) : isEmptyString s = true <-> s = [].
Proof. destruct s; cbn; split; congruence. Qed.

Lemma isEmptyString_false (s : list Z) : isEmptyString s = false <-> s <> [].
Proof. destruct s; cbn; split; congruence. Qed.

End JSStringFacts.

Module EntryFormFacts.
Import JSArray JSString EntryForm FormSpec JSStringFacts.

Lemma filteri_from_remove {A : Type} (images : list A) (index k : Z) :
  filteri_from (fun _ i => negb (i =? index)) k images
  = if (k <=? index) && (index <? k + Z.of_nat (List.length images))
    then firstn (Z.to_nat (index - k)) images
         ++ skipn (S (Z.to_nat (index - k))) images
    else images.
Proof.
  revert k. induction images as [|x images IH]; intros k.
  - cbn. destruct (_ && _); [destruct (Z.to_nat (index - k))|]; reflexivity.
  - cbn [filteri_from]. rewrite IH. cbn [List.length].
    destruct (Z.eqb_spec k index) as [-> | Hneq]; cbn [negb].
    + replace (index - index) with 0 by lia. cbn [Z.to_nat firstn skipn app].
      rewrite Z.leb_refl.
      destruct (Z.ltb_spec index (index + Z.of_nat (S (List.length images))));
        [|lia].
      destruct (Z.leb_spec (index + 1) index); [lia|]. reflexivity.
    + destruct (Z.leb_spec (k + 1) index), (Z.leb_spec k index); try lia;
        cbn [andb]; [|reflexivity].
      destruct (Z.ltb_spec index (k + 1 + Z.of_nat (List.length images))),
        (Z.ltb_spec index (k + Z.of_nat (S (List.length images)))); try lia;
        [|reflexivity].
      replace (Z.to_nat (index - k)) with (S (Z.to_nat (index - (k + 1))))
        by lia.
      reflexivity.
Qed.

(** X16. [removeImage] with an index inside the array returns the images
    before it followed by the images after it, in their order, one image
    fewer; with any other index it returns the images unchanged. *)
Theorem removeImage_removes_one (images : list JournalImage) (index : Z) :
  (0 <= index < Z.of_nat (List.length images) ->
   removeImage images index
   = firstn (Z.to_nat index) images ++ skipn (S (Z.to_nat index)) images /\
   S (List.length (removeImage images index)) = List.length images) /\
  (index < 0 \/ Z.of_nat (List.length images) <= index ->
   removeImage images index = images).
Proof.
  unfold removeImage. rewrite filteri_from_remove, Z.sub_0_r, Z.add_0_l.
  split.
  - intros Hin.
    destruct (Z.leb_spec 0 index); [|lia].
    destruct (Z.ltb_spec index (Z.of_nat (List.length images))); [|lia].
    cbn [andb]. split; [reflexivity|].
    rewrite length_app, length_firstn, length_skipn. lia.
  - intros Hout.
    destruct (Z.leb_spec 0 index); cbn [andb]; [|reflexivity].
    destruct (Z.ltb_spec index (Z.of_nat (List.length images)));
      [lia | reflexivity].
Qed.

Lemma setAt_length {A : Type} (arr : list A) (i : nat) (v : A) :
  List.length (setAt arr i v) = List.length arr.
Proof.
  revert i. induction arr as [|x arr IH]; intros [|i]; cbn; auto.
Qed.

Lemma setAt_same {A : Type} (arr : list A) (i : nat) (v : A) :
  (i < List.length arr)%nat -> nth_error (setAt arr i v) i = Some v.
Proof.
  revert i. induction arr as [|x arr IH]; intros [|i] Hi; cbn in *;
    try lia; [reflexivity|]. apply IH. lia.
Qed.

Lemma setAt_other {A : Type} (arr : list A) (i j : nat) (v : A) :
  j <> i -> nth_error (setAt arr i v) j = nth_error arr j.
Proof.
  revert i j. induction arr as [|x arr IH]; intros [|i] [|j] Hneq; cbn;
    try reflexivity; try congruence.
  apply IH. congruence.
Qed.

Lemma at_index_Some {A : Type} (arr : list A) (i : Z) (x : A) :
  at_index arr i = Some x <->
  0 <= i < Z.of_nat (List.length arr) /\ nth_error arr (Z.to_nat i) = Some x.
Proof.
  unfold at_index. destruct (Z.ltb_spec i 0).
  - split; [discriminate | lia].
  - split.
    + intros Hnth. split; [|exact Hnth].
      assert (Z.to_nat i < List.length arr)%nat
        by (apply nth_error_Some; congruence).
      lia.
    + tauto.
Qed.

(** X17. [updateImageCaption] with an index inside the array returns an
    array of the same length in which the image at that index has the new
    caption and its old [uri] and [alt], every other image being
    unchanged; with any other index it throws a [TypeError] instead of
    updating the state. *)
Theorem updateImageCaption_sets_one (images : list JournalImage)
        (index : Z) (newCaption : list Z) :
  (0 <= index < Z.of_nat (List.length images) ->
   exists newImages old,
     updateImageCaption images index newCaption = inr newImages /\
     List.length newImages = List.length images /\
     nth_error images (Z.to_nat index) = Some old /\
     nth_error newImages (Z.to_nat index)
     = Some {| uri := uri old; caption := Some newCaption; alt := alt old |} /\
     forall j, j <> Z.to_nat index ->
               nth_error newImages j = nth_error images j) /\
  (index < 0 \/ Z.of_nat (List.length images) <= index ->
   updateImageCaption images index newCaption = inl TypeError).
Proof.
  unfold updateImageCaption. cbv zeta.
  destruct (at_index images index) as [old|] eqn:Hat.
  - apply at_index_Some in Hat. destruct Hat as [Hin Hnth]. split; [|lia].
    intros _. eexists. exists old. split; [reflexivity|].
    split; [apply setAt_length|]. split; [exact Hnth|].
    split; [apply setAt_same; lia|].
    intros j Hj. apply setAt_other, Hj.
  - split; [|reflexivity]. intros Hin. exfalso.
    destruct (nth_error images (Z.to_nat index)) as [x|] eqn:Hnth.
    + assert (at_index images index = Some x)
        by (apply at_index_Some; split; [exact Hin | exact Hnth]).
      congruence.
    + apply nth_error_None in Hnth. lia.
Qed.

(** X18. [handleSave] calls [onSave] exactly when the content has a
    character that is not white space, a mood is selected and a user with
    a non-empty id is signed in.  It then sets [isSaving], calls [onSave]
    once and resets [isSaving], also when saving is rejected, and settles
    as [onSave] does.  The saved content is the content without the white
    space around it and is not empty, the saved title is absent when the
    title is blank and otherwise the title without the white space around
    it, and images, mood and user id are passed on unchanged.  In every
    other case the only effect is one alert. *)
Theorem handleSave_saves_trimmed_entry (title content mood : list Z)
        (images : list JournalImage) (user : option User) (saved : Settled) :
  (canSave content mood user ->
   exists entry,
     handleSave title content mood images user saved
     = ([setIsSaving true; onSave entry; setIsSaving false], saved) /\
     trimOf content (EntryForm.content entry) /\
     EntryForm.content entry <> [] /\
     match EntryForm.title entry with
     | None => forallb isWhiteSpace title = true
     | Some t => t <> [] /\ trimOf title t
     end /\
     EntryForm.images entry = images /\
     EntryForm.mood entry = mood /\
     user = Some {| id := userId entry |}) /\
  (~ canSave content mood user ->
   exists heading message,
     handleSave title content mood images user saved
     = ([Alert_alert heading message], Fulfilled)).
Proof.
  unfold canSave, handleSave.
  destruct (isEmptyString (trim content)) eqn:Hcontent.
  { apply isEmptyString_true, trim_nil_iff in Hcontent. split.
    - intros (Htext & _). congruence.
    - intros _. do 2 eexists. reflexivity. }
  apply isEmptyString_false in Hcontent.
  assert (Htext : forallb isWhiteSpace content = false).
  { destruct (forallb isWhiteSpace content) eqn:Hall; [|reflexivity].
    apply trim_nil_iff in Hall. contradiction. }
  destruct (isEmptyString mood) eqn:Hmood.
  { apply isEmptyString_true in Hmood. split.
    - intros (_ & Hm & _). contradiction.
    - intros _. do 2 eexists. reflexivity. }
  apply isEmptyString_false in Hmood.
  destruct user as [[uid]|]; cbn [id].
  - destruct (isEmptyString uid) eqn:Huid.
    + apply isEmptyString_true in Huid. subst uid. split.
      * intros (_ & _ & u & [= <-] & Hid). cbn in Hid. contradiction.
      * intros _. do 2 eexists. reflexivity.
    + apply isEmptyString_false in Huid. split.
      * intros _. eexists. split; [reflexivity|].
        cbn [EntryForm.content EntryForm.title EntryForm.images
             EntryForm.mood userId].
        split; [apply trim_trimOf|]. split; [exact Hcontent|].
        split; [|auto].
        destruct (isEmptyString (trim title)) eqn:Htitle.
        -- apply isEmptyString_true, trim_nil_iff in Htitle. exact Htitle.
        -- apply isEmptyString_false in Htitle.
           split; [exact Htitle | apply trim_trimOf].
      * intros Hinvalid. exfalso. apply Hinvalid.
        split; [exact Htext|]. split; [exact Hmood|].
        exists {| id := uid |}. auto.
  - split.
    + intros (_ & _ & u & [=] & _).
    + intros _. do 2 eexists. reflexivity.
Qed.

(** A blank title and padded content, with a save that is rejected; and
    content made of white space only. *)
Example handleSave_trims :
  handleSave (codeUnits "  ") (codeUnits " Dear diary" ++ [10])
             (codeUnits "happy") [] (Some {| id := codeUnits "user_1" |})
             Rejected
  = ([setIsSaving true;
      onSave {| title := None;
                content := codeUnits "Dear diary";
                images := [];
                mood := codeUnits "happy";
                userId := codeUnits "user_1" |};
      setIsSaving false],
     Rejected) /\
  handleSave (codeUnits "Monday") [32; 10; 9] (codeUnits "happy") []
             (Some {| id := codeUnits "user_1" |}) Fulfilled
  = ([Alert_alert "Missing content"
                  "Please write something in your journal entry"],
     Fulfilled).
Proof. split; reflexivity. Qed.

Example removeImage_second :
  let image (u : list Z) :=
    {| uri := u; caption := Some []; alt := None |} in
  removeImage [image [97]; image [98]; image [99]] 1
  = [image [97]; image [99]] /\
  removeImage [image [97]; image [98]; image [99]] 3
  = [image [97]; image [98]; image [99]] /\
  updateImageCaption [image [97]; image [98]] 1 (codeUnits "sea")
  = inr [image [97];
         {| uri := [98];
            caption := Some (codeUnits "sea");
            alt := None |}] /\
  updateImageCaption [image [97]; image [98]] 2 (codeUnits "sea")
  = inl TypeError.
Proof. repeat split. Qed.

End EntryFormFacts.

(** ** The document preview *)

Module SanityPreviewFacts.
Import JSArray JSString SanityPreview JSStringFacts.

Lemma slice_0_50 {A : Type} (t : list A) : slice t 0 50 = firstn 50 t.
Proof.
  unfold slice, relIndex. cbv zeta.
  change (0 <? 0) with false. change (50 <? 0) with false. cbv iota.
  replace (Z.min 0 (Z.of_nat (List.length t))) with 0 by lia.
  cbn [Z.to_nat skipn]. rewrite Z.sub_0_r.
  destruct (Z.le_ge_cases 50 (Z.of_nat (List.length t))) as [Hlong | Hshort].
  - rewrite Z.min_l by exact Hlong. reflexivity.
  - rewrite Z.min_r by exact Hshort. rewrite Nat2Z.id.
    rewrite firstn_all. symmetry. apply firstn_all2. lia.
Qed.

Lemma preview_by_text (content : option (list Block)) :
  preview content
  = match firstText content with
    | Some (c :: t) => firstn 50 (c :: t)
    | _ => codeUnits "No content"
    end.
Proof.
  unfold preview. destruct (firstText content) as [[|c t]|]; try reflexivity.
  cbv zeta. rewrite slice_0_50. reflexivity.
Qed.

(** X19. The [subtitle] of the preview is decided by the text of the first
    child of the first block: without such a text, or with an empty one,
    it is [No content]; a text of fewer than 50 code units is shown as it
    is; a text of 50 code units or more is cut to its first 50 code units
    followed by three dots, so that a text of exactly 50 code units gets
    the dots although nothing of it was cut.  The subtitle is never longer
    than 53 code units. *)
Theorem subtitle_by_text_length (content : option (list Block)) :
  match firstText content with
  | None => subtitle content = codeUnits "No content"
  | Some t =>
      (t = [] -> subtitle content = codeUnits "No content") /\
      (t <> [] -> (List.length t < 50)%nat -> subtitle content = t) /\
      ((50 <= List.length t)%nat ->
       subtitle content = firstn 50 t ++ codeUnits "...") /\
      (List.length t = 50%nat -> subtitle content = t ++ codeUnits "...")
  end /\
  (List.length (subtitle content) <= 53)%nat.
Proof.
  unfold subtitle. cbv zeta. rewrite preview_by_text.
  destruct (firstText content) as [[|c t]|].
  - split; [|vm_compute; lia].
    repeat split; try reflexivity; intros; cbn in *; try congruence; lia.
  - assert (Hcut : (List.length (firstn 50 (c :: t)) <= 50)%nat)
      by (rewrite length_firstn; lia).
    destruct (Z.leb_spec 50 (Z.of_nat (List.length (firstn 50 (c :: t)))))
      as [Hfull | Hless].
    + assert (Hlong : (50 <= List.length (c :: t))%nat)
        by (rewrite length_firstn in Hfull; lia).
      split.
      * split; [discriminate|]. split; [lia|]. split; [reflexivity|].
        intros Hlen. rewrite <- Hlen at 1. rewrite firstn_all. reflexivity.
      * rewrite length_app. change (List.length (codeUnits "...")) with 3%nat.
        lia.
    + assert (Hshort : (List.length (c :: t) < 50)%nat)
        by (rewrite length_firstn in Hless; lia).
      rewrite firstn_all2 by lia. change (codeUnits "") with (@nil Z).
      rewrite app_nil_r. split.
      * split; [discriminate|]. split; [reflexivity|]. split; lia.
      * lia.
  - split; [reflexivity | vm_compute; lia].
Qed.

(** A text of exactly 50 code units and one of 49. *)
Example subtitle_at_50 :
  let block (t : list Z) :=
    {| _type := "block"; children := Some [{| text := Some t |}] |} in
  subtitle (Some [block (repeat 97 50)]) = repeat 97 50 ++ codeUnits "..." /\
  subtitle (Some [block (repeat 97 49)]) = repeat 97 49 /\
  subtitle (Some [block []]) = codeUnits "No content" /\
  subtitle (Some [{| _type := "image"; children := None |}])
  = codeUnits "No content".
Proof. repeat split. Qed.

End SanityPreviewFacts.

(** ** API URLs *)

Module ApiUrlFacts.
Import JSString ApiUrl FormSpec.

Lemma startsWith_spec (pattern s : list Z) :
  startsWith pattern s = true <-> exists rest, s = pattern ++ rest.
Proof.
  revert s. induction pattern as [|p pattern IH]; intros s.
  - cbn. split; [intros _; exists s; reflexivity | reflexivity].
  - destruct s as [|c s]; cbn [startsWith].
    + split; [discriminate | intros (rest & Heq); discriminate Heq].
    + rewrite andb_true_iff, Z.eqb_eq, IH. split.
      * intros (-> & rest & ->). exists rest. reflexivity.
      * intros (rest & [= -> ->]). split; [reflexivity|].
        exists rest. reflexivity.
Qed.

Lemma skipn_length_app {A : Type} (l1 l2 : list A) :
  skipn (List.length l1) (l1 ++ l2) = l2.
Proof. induction l1 as [|x l1 IH]; cbn; auto. Qed.

Lemma replaceFirst_unfold (pattern replacement s : list Z) :
  replaceFirst pattern replacement s
  = if startsWith pattern s then
      replacement ++ skipn (List.length pattern) s
    else
      match s with
      | [] => []
      | c :: rest => c :: replaceFirst pattern replacement rest
      end.
Proof. destruct s; reflexivity. Qed.

Lemma replaceFirst_first (pattern replacement s pre post : list Z) :
  firstOccurrence pattern s pre post ->
  replaceFirst pattern replacement s = pre ++ replacement ++ post.
Proof.
  revert s. induction pre as [|c pre IH]; intros s (Heq & Hfirst).
  - cbn [app] in Heq. rewrite replaceFirst_unfold.
    replace (startsWith pattern s) with true
      by (symmetry; apply startsWith_spec; exists post; exact Heq).
    rewrite Heq, skipn_length_app. reflexivity.
  - rewrite replaceFirst_unfold.
    destruct (startsWith pattern s) eqn:Hstart.
    + apply startsWith_spec in Hstart. destruct Hstart as (rest & Hrest).
      specialize (Hfirst [] rest Hrest). cbn in Hfirst. lia.
    + subst s. cbn [app]. f_equal. apply IH. split; [reflexivity|].
      intros pre' post' Heq.
      specialize (Hfirst (c :: pre') post'). cbn in Hfirst.
      rewrite Heq in Hfirst. specialize (Hfirst eq_refl). lia.
Qed.

Lemma replaceFirst_none (pattern replacement s : list Z) :
  ~ occurs pattern s -> replaceFirst pattern replacement s = s.
Proof.
  induction s as [|c s IH]; intros Hnone; rewrite replaceFirst_unfold.
  - destruct (startsWith pattern []) eqn:Hstart; [|reflexivity].
    apply startsWith_spec in Hstart. destruct Hstart as (rest & Hrest).
    exfalso. apply Hnone. exists [], rest. exact Hrest.
  - destruct (startsWith pattern (c :: s)) eqn:Hstart.
    + apply startsWith_spec in Hstart. destruct Hstart as (rest & Hrest).
      exfalso. apply Hnone. exists [], rest. exact Hrest.
    + f_equal. apply IH. intros (pre & post & Heq).
      apply Hnone. exists (c :: pre), post. rewrite Heq. reflexivity.
Qed.

(** X20. [generateAPIUrl] replaces the first occurrence of [exp://] in the
    experience URL, wherever it stands and only that one, by [https://],
    and appends the relative path; an experience URL without [exp://] is
    used as it is. *)
Theorem generateAPIUrl_replaces_first_scheme (experienceUrl path : list Z) :
  (forall pre post,
      firstOccurrence (codeUnits "exp://") experienceUrl pre post ->
      generateAPIUrl experienceUrl path
      = pre ++ codeUnits "https://" ++ post ++ path) /\
  (~ occurs (codeUnits "exp://") experienceUrl ->
   generateAPIUrl experienceUrl path = experienceUrl ++ path).
Proof.
  unfold generateAPIUrl. cbv zeta. split.
  - intros pre post Hfirst.
    rewrite (replaceFirst_first _ _ _ pre post Hfirst).
    rewrite <- !app_assoc. reflexivity.
  - intros Hnone. rewrite replaceFirst_none by exact Hnone. reflexivity.
Qed.

Example generateAPIUrl_expo :
  generateAPIUrl (codeUnits "exp://192.168.1.5:8081") (codeUnits "/api/chat")
  = codeUnits "https://192.168.1.5:8081/api/chat" /\
  generateAPIUrl (codeUnits "http://localhost:8081") (codeUnits "/api/chat")
  = codeUnits "http://localhost:8081/api/chat" /\
  generateAPIUrl (codeUnits "exp://host/?next=exp://other") (codeUnits "/x")
  = codeUnits "https://host/?next=exp://other/x".
Proof. repeat split. Qed.

End ApiUrlFacts.
